(** * Russian roulette chat bot: the command handlers, embedded and verified

    The repository holds three revisions of one Go program, each a [main]
    package with a global [games] map from chat id to [*Game] and one handler
    per chat command:

    - [src/unnamed/part_000]: the revision with [/skip], [/pass] and the
      [HasPulledOnTurn] flag (module [Part000] below);
    - [src/unnamed/part_001]: the revision with [/skip] but no [/pass]
      (module [Part001]);
    - [src/main.go]: the revision with neither (module [Main]).

    Every handler body runs under the global mutex, so a handler is modelled as
    a function from the registry to the new registry and the list of messages
    handed to [bot.Send], in the order they are sent.  A Go run-time panic
    (nil dereference, integer division by zero, index out of range) ends the
    handler with [Panic]; what the registry holds after a panic, and whether
    the transport recovers from it, is not modelled, and a run stops there.
    Go's [int] is modelled as [Z] with the 64-bit wrap-around written out
    ([wrap]); [float64] is the kernel's binary64. *)

From Stdlib Require Import ZArith String List Bool Lia.
From Stdlib Require PrimFloat FloatOps SpecFloat Uint63.
From stdpp Require Import base option list gmap strings pretty.

Open Scope Z_scope.

(** ** Machine integers *)

Definition min_int : Z := - 2 ^ 63.
Definition max_int : Z := 2 ^ 63 - 1.

(** The value an [int] expression has after overflow wraps around. *)
Definition wrap (z : Z) : Z := (z + 2 ^ 63) mod 2 ^ 64 - 2 ^ 63.

(** ** Run-time panics *)

Inductive RuntimeError : Set :=
| NilDereference
| DivideByZero
| IndexOutOfRange.

Inductive Outcome (A : Type) : Type :=
| Done (a : A)
| Panic (e : RuntimeError).
Arguments Done {A} a.
Arguments Panic {A} e.

Definition bind {A B : Type} (x : Outcome A) (k : A → Outcome B) : Outcome B :=
  match x with
  | Done a => k a
  | Panic e => Panic e
  end.

Notation "'let*' x ':=' e 'in' k" := (bind e (fun x => k))
  (at level 10, x name, e at level 100, k at level 200).

(** ** The transport's view of a command: [telebot.Message] *)

(** [telebot.User]: the fields the program reads. *)
Record User : Set := {
  Username : string;
  FirstName : string;
  ID : Z
}.

(** [telebot.Message]: the chat the command was sent in and its sender.  The
    handlers dereference [m.Sender] without a nil check; the model covers the
    messages that carry a sender. *)
Record Message : Set := {
  ChatID : Z;
  Sender : User
}.

(** [getPlayerID]: user name, else first name, else ["player<ID>"]. *)
Definition getPlayerID (sender : User) : string :=
  if negb (String.eqb (Username sender) "") then Username sender
  else if negb (String.eqb (FirstName sender) "") then FirstName sender
  else "player" +:+ pretty (ID sender).

(** [players[i]] on a slice: a negative or too large index panics. *)
Definition index (players : list string) (i : Z) : Outcome string :=
  if i <? 0 then Panic IndexOutOfRange
  else match players !! Z.to_nat i with
       | Some p => Done p
       | None => Panic IndexOutOfRange
       end.

(** [a % b] on [int]: panics when [b] is zero, truncates towards zero. *)
Definition modulo (a b : Z) : Outcome Z :=
  if b =? 0 then Panic DivideByZero else Done (Z.rem a b).

(** [len(players)] as an [int]. *)
Definition len (players : list string) : Z := Z.of_nat (length players).

(** The loop [for _, player := range players { if player == playerID {...} }]:
    does the loop body fire? *)
Fixpoint inRoster (playerID : string) (players : list string) : bool :=
  match players with
  | [] => false
  | player :: rest =>
      if String.eqb player playerID then true else inRoster playerID rest
  end.

(** ** float64 *)

Section Float64.
Import PrimFloat.

(** [float64(n)] for an [int]: the magnitude goes through the 63-bit
    conversion (the one magnitude that does not fit, [2 ^ 63], is halved
    first and doubled after, both exact), then the sign is put back. *)
Definition float64 (n : Z) : float :=
  let a := Z.abs n in
  let f := if a <? 2 ^ 63 then of_uint63 (Uint63.of_Z a)
           else (of_uint63 (Uint63.of_Z (a / 2)) * 2)%float in
  if n <? 0 then (- f)%float else f.

(** [(1.0 / float64(remainingChambers)) * 100]. *)
Definition oddsPercentage (remainingChambers : Z) : float :=
  (1.0 / float64 remainingChambers * 100)%float.

(** The quotient the specification writes: [100.0 / remainingChambers]. *)
Definition hundredOver (remainingChambers : Z) : float :=
  (100.0 / float64 remainingChambers)%float.

End Float64.

(** The verb [%.1f] of [fmt.Sprintf]: the decimal with one fractional digit
    nearest to the exact value of the float, a tie going to the even digit.
    The result is the number of tenths; [None] for infinities and NaN. *)
Definition round_half_even (num den : Z) : Z :=
  let q := num / den in
  let r := num mod den in
  match Z.compare (2 * r) den with
  | Lt => q
  | Gt => q + 1
  | Eq => if Z.even q then q else q + 1
  end.

Definition tenths (f : PrimFloat.float) : option Z :=
  match FloatOps.Prim2SF f with
  | SpecFloat.S754_zero _ => Some 0
  | SpecFloat.S754_finite s m e =>
      let mag :=
        if 0 <=? e then Z.pos m * 2 ^ e * 10
        else round_half_even (Z.pos m * 10) (2 ^ (- e)) in
      Some (if s then - mag else mag)
  | _ => None
  end.

(** * [src/unnamed/part_000]: the revision with [/skip] and [/pass] *)

Module Part000.

(** ** Data *)

Record Game : Type := {
  Players : list string;
  Bullet : Z;
  CurrentPos : Z;
  PullCount : Z;
  IsActive : bool;
  Skips : gmap string Z;
  HasPulledOnTurn : bool
}.

(** [games]: [map[int64]*Game].  An entry is a pointer: [None] is [nil].
    Every [&Game{...}] is a fresh object reachable through its map entry
    only, so writing through the pointer is an update of the entry. *)
Abbreviation Registry := (gmap Z (option Game)).

(** What [bot.Send] is given: one constructor per message text, carrying the
    arguments of its format string. *)
Inductive Msg : Type :=
| AlreadyInProgress
| Created (username : string)
| NoActiveGame
| AlreadyInGame
| Joined (username : string) (players : list string)
| NeedTwoPlayers
| GameStarting
| FirstUp (player : string)
| NotYourTurnToPlay (currentPlayer : string)
| AlreadyPulled
| NoSkipsRemaining
| Skipped (currentPlayer : string) (skipsLeft : Z) (nextPlayer : string)
| MustPullFirst
| Passed (currentPlayer nextPlayer : string)
| NotYourTurnToPull (currentPlayer : string)
| Bang (username : string)
| Survives (playerID : string) (remainingChambers : Z)
           (oddsPercentage : PrimFloat.float) (skips : Z)
| GameStopped
| NoGameToStop
| HelpText
| NoActiveGameStatus
| Status (players : list string) (currentPlayer : string)
         (skips : list (string * Z)).

Abbreviation Result := (Outcome (Registry * list Msg)).

(** ** Expressions the handlers share *)

(** [game, exists := games[id]; exists && game.IsActive] *)
Definition existsAndActive (games : Registry) (id : Z) : Outcome bool :=
  match games !! id with
  | None => Done false
  | Some None => Panic NilDereference
  | Some (Some game) => Done (IsActive game)
  end.

(** [game, exists := games[id]; if !exists || !game.IsActive { ... return }]:
    [None] when the guard fires, the game otherwise. *)
Definition activeGame (games : Registry) (id : Z) : Outcome (option Game) :=
  match games !! id with
  | None => Done None
  | Some None => Panic NilDereference
  | Some (Some game) => Done (if IsActive game then Some game else None)
  end.

(** [game.Players[game.CurrentPos%len(game.Players)]] *)
Definition playerOnTurn (game : Game) : Outcome string :=
  let* i := modulo (CurrentPos game) (len (Players game)) in
  index (Players game) i.

(** [game.Skips[player]]: a missing key reads as zero. *)
Definition skipsOf (game : Game) (player : string) : Z :=
  default 0 (Skips game !! player).

(** ** The handlers *)

(** [/create]; [draw] is the value [rand.Intn(6)] returns. *)
Definition create (draw : Z) (m : Message) (games : Registry) : Result :=
  let* busy := existsAndActive games (ChatID m) in
  if busy then Done (games, [AlreadyInProgress])
  else
    let playerID := getPlayerID (Sender m) in
    let game := {| Players := [playerID];
                   Bullet := draw;
                   CurrentPos := 0;
                   PullCount := 0;
                   IsActive := true;
                   Skips := {[ playerID := 2 ]};
                   HasPulledOnTurn := false |} in
    Done (<[ChatID m := Some game]> games, [Created (Username (Sender m))]).

(** [/join] *)
Definition join (m : Message) (games : Registry) : Result :=
  let* found := activeGame games (ChatID m) in
  match found with
  | None => Done (games, [NoActiveGame])
  | Some game =>
      let playerID := getPlayerID (Sender m) in
      if inRoster playerID (Players game) then Done (games, [AlreadyInGame])
      else
        let game' := {| Players := Players game ++ [playerID];
                        Bullet := Bullet game;
                        CurrentPos := CurrentPos game;
                        PullCount := PullCount game;
                        IsActive := IsActive game;
                        Skips := <[playerID := 2]> (Skips game);
                        HasPulledOnTurn := HasPulledOnTurn game |} in
        Done (<[ChatID m := Some game']> games,
              [Joined (Username (Sender m)) (Players game')])
  end.

(** [/start]: reads the game and writes nothing. *)
Definition start (m : Message) (games : Registry) : Result :=
  let* found := activeGame games (ChatID m) in
  match found with
  | None => Done (games, [NoActiveGame])
  | Some game =>
      if len (Players game) <? 2 then Done (games, [NeedTwoPlayers])
      else
        let* first := index (Players game) 0 in
        Done (games, [GameStarting; FirstUp first])
  end.

(** [/skip] *)
Definition skip (m : Message) (games : Registry) : Result :=
  let* found := activeGame games (ChatID m) in
  match found with
  | None => Done (games, [NoActiveGame])
  | Some game =>
      let* currentPlayer := playerOnTurn game in
      if negb (String.eqb (getPlayerID (Sender m)) currentPlayer)
      then Done (games, [NotYourTurnToPlay currentPlayer])
      else if HasPulledOnTurn game then Done (games, [AlreadyPulled])
      else if skipsOf game currentPlayer <=? 0
      then Done (games, [NoSkipsRemaining])
      else
        let game' :=
          {| Players := Players game;
             Bullet := Bullet game;
             CurrentPos := wrap (CurrentPos game + 1);
             PullCount := PullCount game;
             IsActive := IsActive game;
             Skips := <[currentPlayer := wrap (skipsOf game currentPlayer - 1)]>
                        (Skips game);
             HasPulledOnTurn := false |} in
        let* nextPlayer := playerOnTurn game' in
        let skipsLeft := skipsOf game' currentPlayer in
        Done (<[ChatID m := Some game']> games,
              [Skipped currentPlayer skipsLeft nextPlayer])
  end.

(** [/pass] *)
Definition pass (m : Message) (games : Registry) : Result :=
  let* found := activeGame games (ChatID m) in
  match found with
  | None => Done (games, [NoActiveGame])
  | Some game =>
      let* currentPlayer := playerOnTurn game in
      if negb (String.eqb (getPlayerID (Sender m)) currentPlayer)
      then Done (games, [NotYourTurnToPlay currentPlayer])
      else if negb (HasPulledOnTurn game) then Done (games, [MustPullFirst])
      else
        let game' :=
          {| Players := Players game;
             Bullet := Bullet game;
             CurrentPos := wrap (CurrentPos game + 1);
             PullCount := PullCount game;
             IsActive := IsActive game;
             Skips := Skips game;
             HasPulledOnTurn := false |} in
        let* nextPlayer := playerOnTurn game' in
        Done (<[ChatID m := Some game']> games,
              [Passed currentPlayer nextPlayer])
  end.

(** [remainingChambers := 6 - game.PullCount - 1] *)
Definition remainingChambers (game : Game) : Z :=
  wrap (wrap (6 - PullCount game) - 1).

(** [/pull] *)
Definition pull (m : Message) (games : Registry) : Result :=
  let* found := activeGame games (ChatID m) in
  match found with
  | None => Done (games, [NoActiveGame])
  | Some game =>
      let* currentPlayer := playerOnTurn game in
      if negb (String.eqb (getPlayerID (Sender m)) currentPlayer)
      then Done (games, [NotYourTurnToPull currentPlayer])
      else if PullCount game =? Bullet game
      then Done (delete (ChatID m) games, [Bang (Username (Sender m))])
      else if remainingChambers game <=? 0
      then Done (delete (ChatID m) games, [Bang (Username (Sender m))])
      else
        let game' :=
          {| Players := Players game;
             Bullet := Bullet game;
             CurrentPos := CurrentPos game;
             PullCount := wrap (PullCount game + 1);
             IsActive := IsActive game;
             Skips := Skips game;
             HasPulledOnTurn := true |} in
        Done (<[ChatID m := Some game']> games,
              [Survives (getPlayerID (Sender m)) (remainingChambers game)
                        (oddsPercentage (remainingChambers game))
                        (skipsOf game' currentPlayer)])
  end.

(** [/stop] *)
Definition stop (m : Message) (games : Registry) : Result :=
  let* busy := existsAndActive games (ChatID m) in
  if busy then Done (delete (ChatID m) games, [GameStopped])
  else Done (games, [NoGameToStop]).

(** [/help] *)
Definition help (m : Message) (games : Registry) : Result :=
  Done (games, [HelpText]).

(** [/status] *)
Definition status (m : Message) (games : Registry) : Result :=
  let* found := activeGame games (ChatID m) in
  match found with
  | None => Done (games, [NoActiveGameStatus])
  | Some game =>
      let* currentPlayer := playerOnTurn game in
      Done (games,
            [Status (Players game) currentPlayer
                    (map (fun player => (player, skipsOf game player))
                         (Players game))])
  end.

(** ** Which way a [/pull] goes

    Both fatal branches of [/pull] send the same text and delete the same
    entry; [pullBranch] follows the handler's tests and names the branch
    taken.  [pull_by_branch] below ties it to [pull]. *)
Inductive PullBranch : Type :=
| GuardFired
| WrongPlayer (currentPlayer : string)
| BulletHit
| ChambersExhausted
| Survived (game : Game) (currentPlayer : string).

Definition pullBranch (m : Message) (games : Registry) : Outcome PullBranch :=
  let* found := activeGame games (ChatID m) in
  match found with
  | None => Done GuardFired
  | Some game =>
      let* currentPlayer := playerOnTurn game in
      if negb (String.eqb (getPlayerID (Sender m)) currentPlayer)
      then Done (WrongPlayer currentPlayer)
      else if PullCount game =? Bullet game then Done BulletHit
      else if remainingChambers game <=? 0 then Done ChambersExhausted
      else Done (Survived game currentPlayer)
  end.

(** ** Commands and runs *)

Inductive Command : Set :=
| Create (draw : Z)
| Join
| Start
| Skip
| Pass
| Pull
| Stop
| Help
| GetStatus.

Definition handle (c : Command) (m : Message) (games : Registry) : Result :=
  match c with
  | Create draw => create draw m games
  | Join => join m games
  | Start => start m games
  | Skip => skip m games
  | Pass => pass m games
  | Pull => pull m games
  | Stop => stop m games
  | Help => help m games
  | GetStatus => status m games
  end.

(** [rand.Intn(6)] returns a value in [0, 6). *)
Definition drawInRange (c : Command) : Prop :=
  match c with
  | Create draw => 0 <= draw < 6
  | _ => True
  end.

(** The commands of a run are handled one after the other; a panic ends the
    run.  The messages of all handlers are collected in order. *)
Fixpoint run (events : list (Command * Message)) (games : Registry) : Result :=
  match events with
  | [] => Done (games, [])
  | (c, m) :: rest =>
      let* r := handle c m games in
      let* r' := run rest (fst r) in
      Done (fst r', snd r ++ snd r')
  end.

(** The registries the program can be in: it starts with the empty map and
    moves by handlers that return. *)
Inductive reachable : Registry → Prop :=
| reachable_start : reachable ∅
| reachable_step games c m games' sent :
    reachable games →
    drawInRange c →
    handle c m games = Done (games', sent) →
    reachable games'.

(** The game of chat [id] lives on from one registry to another: every
    handler on the way returns and leaves an entry for [id] behind.  (An
    entry that is there is never replaced: [/create] refuses while the entry
    is active, and every reachable entry is.) *)
Inductive gameContinues (id : Z) : Registry → Registry → Prop :=
| gameContinues_here games : gameContinues id games games
| gameContinues_step games games' games'' c m sent game :
    gameContinues id games games' →
    drawInRange c →
    handle c m games' = Done (games'', sent) →
    games'' !! id = Some (Some game) →
    gameContinues id games games''.

(** ** The invariant of the reachable registries *)

(** A game is active, has fired at most as many pulls as the chamber of
    its bullet, one of the six, and every skip count is 0, 1 or 2. *)
Definition gameOk (game : Game) : Prop :=
  IsActive game = true ∧ 0 <= PullCount game <= Bullet game ∧ Bullet game < 6 ∧
  map_Forall (fun _ skips => 0 <= skips <= 2) (Skips game).

(** No entry is [nil], and every game is [gameOk]. *)
Definition registryOk (games : Registry) : Prop :=
  ∀ id entry, games !! id = Some entry → ∃ game, entry = Some game ∧ gameOk game.

(** ** The moves of a game

    What the handlers write into an entry, as a relation on games: the
    player [sender] joins, skips, passes, or pulls and survives.  (A fatal
    pull and [/stop] delete the entry; [/create] writes [newGame].) *)
Inductive gameStep (sender : string) : Game → Game → Prop :=
| step_join game :
    inRoster sender (Players game) = false →
    gameStep sender game
      {| Players := Players game ++ [sender];
         Bullet := Bullet game;
         CurrentPos := CurrentPos game;
         PullCount := PullCount game;
         IsActive := IsActive game;
         Skips := <[sender := 2]> (Skips game);
         HasPulledOnTurn := HasPulledOnTurn game |}
| step_skip game :
    playerOnTurn game = Done sender →
    HasPulledOnTurn game = false →
    0 < skipsOf game sender →
    gameStep sender game
      {| Players := Players game;
         Bullet := Bullet game;
         CurrentPos := wrap (CurrentPos game + 1);
         PullCount := PullCount game;
         IsActive := IsActive game;
         Skips := <[sender := wrap (skipsOf game sender - 1)]> (Skips game);
         HasPulledOnTurn := false |}
| step_pass game :
    playerOnTurn game = Done sender →
    HasPulledOnTurn game = true →
    gameStep sender game
      {| Players := Players game;
         Bullet := Bullet game;
         CurrentPos := wrap (CurrentPos game + 1);
         PullCount := PullCount game;
         IsActive := IsActive game;
         Skips := Skips game;
         HasPulledOnTurn := false |}
| step_pull game :
    playerOnTurn game = Done sender →
    PullCount game ≠ Bullet game →
    0 < remainingChambers game →
    gameStep sender game
      {| Players := Players game;
         Bullet := Bullet game;
         CurrentPos := CurrentPos game;
         PullCount := wrap (PullCount game + 1);
         IsActive := IsActive game;
         Skips := Skips game;
         HasPulledOnTurn := true |}.

(** The game [/create] stores. *)
Definition newGame (draw : Z) (playerID : string) : Game :=
  {| Players := [playerID];
     Bullet := draw;
     CurrentPos := 0;
     PullCount := 0;
     IsActive := true;
     Skips := {[ playerID := 2 ]};
     HasPulledOnTurn := false |}.

(** What a handler that returns may have done to the registry: nothing;
    or deleted the chat's entry; or, the chat having none, stored a new
    game with a draw in range; or moved the chat's game by a [gameStep]. *)
Definition stepShape (m : Message) (games games' : Registry) : Prop :=
  games' = games ∨
  games' = delete (ChatID m) games ∨
  (games !! ChatID m = None ∧
   ∃ draw, 0 <= draw < 6 ∧
           games' = <[ChatID m := Some (newGame draw (getPlayerID (Sender m)))]> games) ∨
  (∃ game game',
     games !! ChatID m = Some (Some game) ∧
     gameStep (getPlayerID (Sender m)) game game' ∧
     games' = <[ChatID m := Some game']> games).

(** ** The turn counter in the reachable registries *)

(** [1] when the flag is set. *)
Definition flag (game : Game) : Z := if HasPulledOnTurn game then 1 else 0.

(** The skips the players of a roster have left, added up. *)
Fixpoint sumSkips (skips : gmap string Z) (players : list string) : Z :=
  match players with
  | [] => 0
  | player :: rest => default 0 (skips !! player) + sumSkips skips rest
  end.

(** The roster is not empty and has no duplicates; and, for a roster of a
    size a slice can have, the turn counter is not negative and every turn
    ended so far is paid for by a skip used up or by a pull: the counter,
    the skips left and the flag together are at most two per player plus
    the pulls fired. *)
Definition turnOk (game : Game) : Prop :=
  Players game ≠ [] ∧
  NoDup (Players game) ∧
  (len (Players game) < 2 ^ 61 →
   0 <= CurrentPos game ∧
   CurrentPos game + sumSkips (Skips game) (Players game) + flag game
   <= 2 * len (Players game) + PullCount game).

Definition registryTurnOk (games : Registry) : Prop :=
  ∀ id game, games !! id = Some (Some game) → turnOk game.

End Part000.

(** * [src/unnamed/part_001]: the revision with [/skip] and no [/pass] *)

Module Part001.

Record Game : Type := {
  Players : list string;
  Bullet : Z;
  CurrentPos : Z;
  PullCount : Z;
  IsActive : bool;
  Skips : gmap string Z
}.

Abbreviation Registry := (gmap Z (option Game)).

Inductive Msg : Type :=
| AlreadyInProgress
| Created (username : string)
| NoActiveGame
| AlreadyInGame
| Joined (username : string) (players : list string)
| NeedTwoPlayers
| GameStarting
| FirstUp (player : string)
| NotYourTurnToPlay (currentPlayer : string)
| NoSkipsRemaining
| Skipped (currentPlayer : string) (skipsLeft : Z) (nextPlayer : string)
| NotYourTurnToPull (currentPlayer : string)
| Bang (username : string)
| Survives (playerID : string) (remainingChambers : Z)
           (oddsPercentage : PrimFloat.float) (skips : Z)
| NextUp (nextPlayer : string)
| GameStopped
| NoGameToStop
| HelpText
| NoActiveGameStatus
| Status (players : list string) (currentPlayer : string)
         (skips : list (string * Z)).

Abbreviation Result := (Outcome (Registry * list Msg)).

Definition existsAndActive (games : Registry) (id : Z) : Outcome bool :=
  match games !! id with
  | None => Done false
  | Some None => Panic NilDereference
  | Some (Some game) => Done (IsActive game)
  end.

Definition activeGame (games : Registry) (id : Z) : Outcome (option Game) :=
  match games !! id with
  | None => Done None
  | Some None => Panic NilDereference
  | Some (Some game) => Done (if IsActive game then Some game else None)
  end.

Definition playerOnTurn (game : Game) : Outcome string :=
  let* i := modulo (CurrentPos game) (len (Players game)) in
  index (Players game) i.

Definition skipsOf (game : Game) (player : string) : Z :=
  default 0 (Skips game !! player).

(** [/create] *)
Definition create (draw : Z) (m : Message) (games : Registry) : Result :=
  let* busy := existsAndActive games (ChatID m) in
  if busy then Done (games, [AlreadyInProgress])
  else
    let playerID := getPlayerID (Sender m) in
    let game := {| Players := [playerID];
                   Bullet := draw;
                   CurrentPos := 0;
                   PullCount := 0;
                   IsActive := true;
                   Skips := {[ playerID := 2 ]} |} in
    Done (<[ChatID m := Some game]> games, [Created (Username (Sender m))]).

(** [/join] *)
Definition join (m : Message) (games : Registry) : Result :=
  let* found := activeGame games (ChatID m) in
  match found with
  | None => Done (games, [NoActiveGame])
  | Some game =>
      let playerID := getPlayerID (Sender m) in
      if inRoster playerID (Players game) then Done (games, [AlreadyInGame])
      else
        let game' := {| Players := Players game ++ [playerID];
                        Bullet := Bullet game;
                        CurrentPos := CurrentPos game;
                        PullCount := PullCount game;
                        IsActive := IsActive game;
                        Skips := <[playerID := 2]> (Skips game) |} in
        Done (<[ChatID m := Some game']> games,
              [Joined (Username (Sender m)) (Players game')])
  end.

(** [/start] *)
Definition start (m : Message) (games : Registry) : Result :=
  let* found := activeGame games (ChatID m) in
  match found with
  | None => Done (games, [NoActiveGame])
  | Some game =>
      if len (Players game) <? 2 then Done (games, [NeedTwoPlayers])
      else
        let* first := index (Players game) 0 in
        Done (games, [GameStarting; FirstUp first])
  end.

(** [/skip] *)
Definition skip (m : Message) (games : Registry) : Result :=
  let* found := activeGame games (ChatID m) in
  match found with
  | None => Done (games, [NoActiveGame])
  | Some game =>
      let* currentPlayer := playerOnTurn game in
      if negb (String.eqb (getPlayerID (Sender m)) currentPlayer)
      then Done (games, [NotYourTurnToPlay currentPlayer])
      else if skipsOf game currentPlayer <=? 0
      then Done (games, [NoSkipsRemaining])
      else
        let game' :=
          {| Players := Players game;
             Bullet := Bullet game;
             CurrentPos := wrap (CurrentPos game + 1);
             PullCount := PullCount game;
             IsActive := IsActive game;
             Skips := <[currentPlayer := wrap (skipsOf game currentPlayer - 1)]>
                        (Skips game) |} in
        let* nextPlayer := playerOnTurn game' in
        let skipsLeft := skipsOf game' currentPlayer in
        Done (<[ChatID m := Some game']> games,
              [Skipped currentPlayer skipsLeft nextPlayer])
  end.

Definition remainingChambers (game : Game) : Z :=
  wrap (wrap (6 - PullCount game) - 1).

(** [/pull]: both fatal branches overwrite the entry with [nil]. *)
Definition pull (m : Message) (games : Registry) : Result :=
  let* found := activeGame games (ChatID m) in
  match found with
  | None => Done (games, [NoActiveGame])
  | Some game =>
      let* currentPlayer := playerOnTurn game in
      if negb (String.eqb (getPlayerID (Sender m)) currentPlayer)
      then Done (games, [NotYourTurnToPull currentPlayer])
      else if PullCount game =? Bullet game
      then Done (<[ChatID m := None]> games, [Bang (Username (Sender m))])
      else if remainingChambers game <=? 0
      then Done (<[ChatID m := None]> games, [Bang (Username (Sender m))])
      else
        let survivalMsg :=
          Survives (getPlayerID (Sender m)) (remainingChambers game)
                   (oddsPercentage (remainingChambers game))
                   (skipsOf game currentPlayer) in
        let game' :=
          {| Players := Players game;
             Bullet := Bullet game;
             CurrentPos := wrap (CurrentPos game + 1);
             PullCount := wrap (PullCount game + 1);
             IsActive := IsActive game;
             Skips := Skips game |} in
        let* nextPlayer := playerOnTurn game' in
        Done (<[ChatID m := Some game']> games, [survivalMsg; NextUp nextPlayer])
  end.

(** [/stop]: overwrites the entry with [nil]. *)
Definition stop (m : Message) (games : Registry) : Result :=
  let* busy := existsAndActive games (ChatID m) in
  if busy then Done (<[ChatID m := None]> games, [GameStopped])
  else Done (games, [NoGameToStop]).

(** [/help] *)
Definition help (m : Message) (games : Registry) : Result :=
  Done (games, [HelpText]).

(** [/status] *)
Definition status (m : Message) (games : Registry) : Result :=
  let* found := activeGame games (ChatID m) in
  match found with
  | None => Done (games, [NoActiveGameStatus])
  | Some game =>
      let* currentPlayer := playerOnTurn game in
      Done (games,
            [Status (Players game) currentPlayer
                    (map (fun player => (player, skipsOf game player))
                         (Players game))])
  end.

Inductive Command : Set :=
| Create (draw : Z)
| Join
| Start
| Skip
| Pull
| Stop
| Help
| GetStatus.

Definition handle (c : Command) (m : Message) (games : Registry) : Result :=
  match c with
  | Create draw => create draw m games
  | Join => join m games
  | Start => start m games
  | Skip => skip m games
  | Pull => pull m games
  | Stop => stop m games
  | Help => help m games
  | GetStatus => status m games
  end.

Fixpoint run (events : list (Command * Message)) (games : Registry) : Result :=
  match events with
  | [] => Done (games, [])
  | (c, m) :: rest =>
      let* r := handle c m games in
      let* r' := run rest (fst r) in
      Done (fst r', snd r ++ snd r')
  end.

End Part001.

(** * [src/main.go]: the revision without [/skip] and [/pass] *)

Module Main.

Record Game : Type := {
  Players : list string;
  Bullet : Z;
  CurrentPos : Z;
  IsActive : bool
}.

Abbreviation Registry := (gmap Z (option Game)).

Inductive Msg : Type :=
| AlreadyInProgress
| Created (username : string)
| NoActiveGame
| AlreadyInGame
| Joined (username : string) (players : list string)
| NeedTwoPlayers
| GameStarting
| FirstUp (player : string)
| NotYourTurnToPull (currentPlayer : string)
| Bang (username : string)
| Survives (playerID : string) (remainingChambers : Z)
           (oddsPercentage : PrimFloat.float)
| NextUp (nextPlayer : string)
| GameStopped
| NoGameToStop
| HelpText
| NoActiveGameStatus
| Status (players : list string) (currentPlayer : string).

Abbreviation Result := (Outcome (Registry * list Msg)).

Definition existsAndActive (games : Registry) (id : Z) : Outcome bool :=
  match games !! id with
  | None => Done false
  | Some None => Panic NilDereference
  | Some (Some game) => Done (IsActive game)
  end.

Definition activeGame (games : Registry) (id : Z) : Outcome (option Game) :=
  match games !! id with
  | None => Done None
  | Some None => Panic NilDereference
  | Some (Some game) => Done (if IsActive game then Some game else None)
  end.

Definition playerOnTurn (game : Game) : Outcome string :=
  let* i := modulo (CurrentPos game) (len (Players game)) in
  index (Players game) i.

(** [/startroulette] *)
Definition startroulette (draw : Z) (m : Message) (games : Registry) : Result :=
  let* busy := existsAndActive games (ChatID m) in
  if busy then Done (games, [AlreadyInProgress])
  else
    let playerID := getPlayerID (Sender m) in
    let game := {| Players := [playerID];
                   Bullet := draw;
                   CurrentPos := 0;
                   IsActive := true |} in
    Done (<[ChatID m := Some game]> games, [Created (Username (Sender m))]).

(** [/join] *)
Definition join (m : Message) (games : Registry) : Result :=
  let* found := activeGame games (ChatID m) in
  match found with
  | None => Done (games, [NoActiveGame])
  | Some game =>
      let playerID := getPlayerID (Sender m) in
      if inRoster playerID (Players game) then Done (games, [AlreadyInGame])
      else
        let game' := {| Players := Players game ++ [playerID];
                        Bullet := Bullet game;
                        CurrentPos := CurrentPos game;
                        IsActive := IsActive game |} in
        Done (<[ChatID m := Some game']> games,
              [Joined (Username (Sender m)) (Players game')])
  end.

(** [/startgame] *)
Definition startgame (m : Message) (games : Registry) : Result :=
  let* found := activeGame games (ChatID m) in
  match found with
  | None => Done (games, [NoActiveGame])
  | Some game =>
      if len (Players game) <? 2 then Done (games, [NeedTwoPlayers])
      else
        let* first := index (Players game) 0 in
        Done (games, [GameStarting; FirstUp first])
  end.

(** [/pull]: the sender is compared by [Username]; the fatal branch
    overwrites the entry with [nil]. *)
Definition pull (m : Message) (games : Registry) : Result :=
  let* found := activeGame games (ChatID m) in
  match found with
  | None => Done (games, [NoActiveGame])
  | Some game =>
      let* currentPlayer := playerOnTurn game in
      if negb (String.eqb (Username (Sender m)) currentPlayer)
      then Done (games, [NotYourTurnToPull currentPlayer])
      else if CurrentPos game =? Bullet game
      then Done (<[ChatID m := None]> games, [Bang (Username (Sender m))])
      else
        let remainingChambers := wrap (6 - wrap (CurrentPos game + 1)) in
        let survivalMsg :=
          Survives (getPlayerID (Sender m)) remainingChambers
                   (oddsPercentage remainingChambers) in
        let game' :=
          {| Players := Players game;
             Bullet := Bullet game;
             CurrentPos := wrap (CurrentPos game + 1);
             IsActive := IsActive game |} in
        let* nextPlayer := playerOnTurn game' in
        Done (<[ChatID m := Some game']> games, [survivalMsg; NextUp nextPlayer])
  end.

(** [/stopgame]: overwrites the entry with [nil]. *)
Definition stopgame (m : Message) (games : Registry) : Result :=
  let* busy := existsAndActive games (ChatID m) in
  if busy then Done (<[ChatID m := None]> games, [GameStopped])
  else Done (games, [NoGameToStop]).

(** [/help] *)
Definition help (m : Message) (games : Registry) : Result :=
  Done (games, [HelpText]).

(** [/status] *)
Definition status (m : Message) (games : Registry) : Result :=
  let* found := activeGame games (ChatID m) in
  match found with
  | None => Done (games, [NoActiveGameStatus])
  | Some game =>
      let* currentPlayer := playerOnTurn game in
      Done (games, [Status (Players game) currentPlayer])
  end.

Inductive Command : Set :=
| StartRoulette (draw : Z)
| Join
| StartGame
| Pull
| StopGame
| Help
| GetStatus.

Definition handle (c : Command) (m : Message) (games : Registry) : Result :=
  match c with
  | StartRoulette draw => startroulette draw m games
  | Join => join m games
  | StartGame => startgame m games
  | Pull => pull m games
  | StopGame => stopgame m games
  | Help => help m games
  | GetStatus => status m games
  end.

Fixpoint run (events : list (Command * Message)) (games : Registry) : Result :=
  match events with
  | [] => Done (games, [])
  | (c, m) :: rest =>
      let* r := handle c m games in
      let* r' := run rest (fst r) in
      Done (fst r', snd r ++ snd r')
  end.

End Main.

(** * Runs of [src/main.go] and of [src/unnamed/part_001] *)

Module MainRuns.
Import Main.

(** [rand.Intn(6)] returns a value in [0, 6). *)
Definition drawInRange (c : Command) : Prop :=
  match c with
  | StartRoulette draw => 0 <= draw < 6
  | _ => True
  end.

(** The registries [src/main.go] can be in: it starts with the empty map
    and moves by handlers that return. *)
Inductive reachable : Registry → Prop :=
| reachable_start : reachable ∅
| reachable_step games c m games' sent :
    reachable games →
    drawInRange c →
    handle c m games = Done (games', sent) →
    reachable games'.

(** A game is active and its turn counter, which is also its count of
    pulls, is at most the chamber of its bullet, one of the six. *)
Definition gameOk (game : Game) : Prop :=
  IsActive game = true ∧ 0 <= CurrentPos game <= Bullet game ∧ Bullet game < 6.

(** Every entry that is not [nil] holds a game that is [gameOk]. *)
Definition registryOk (games : Registry) : Prop :=
  ∀ id game, games !! id = Some (Some game) → gameOk game.

End MainRuns.

Module Part001Runs.
Import Part001.

Definition drawInRange (c : Command) : Prop :=
  match c with
  | Create draw => 0 <= draw < 6
  | _ => True
  end.

(** The registries [src/unnamed/part_001] can be in. *)
Inductive reachable : Registry → Prop :=
| reachable_start : reachable ∅
| reachable_step games c m games' sent :
    reachable games →
    drawInRange c →
    handle c m games = Done (games', sent) →
    reachable games'.

(** A game is active and has fired at most as many pulls as the chamber
    of its bullet, one of the six. *)
Definition gameOk (game : Game) : Prop :=
  IsActive game = true ∧ 0 <= PullCount game <= Bullet game ∧ Bullet game < 6.

Definition registryOk (games : Registry) : Prop :=
  ∀ id game, games !! id = Some (Some game) → gameOk game.

End Part001Runs.

Module MainSample.
Import Main.

(** Bob's game in [src/main.go]: he plays under his first name. *)
Definition bobAlone (draw : Z) : Game :=
  {| Players := ["Bob"]; Bullet := draw; CurrentPos := 0; IsActive := true |}.

(** Alice and Carol, both with user names. *)
Definition pair (draw pos : Z) : Game :=
  {| Players := ["alice"; "carol"]; Bullet := draw; CurrentPos := pos;
     IsActive := true |}.

Definition room (game : Game) : Registry := {[ 7 := Some game ]}.

End MainSample.

Module Part001Sample.
Import Part001.

Definition pair (draw pos pulls : Z) : Game :=
  {| Players := ["alice"; "carol"]; Bullet := draw; CurrentPos := pos;
     PullCount := pulls; IsActive := true;
     Skips := <["carol" := 2]> {[ "alice" := 2 ]} |}.

Definition room (game : Game) : Registry := {[ 7 := Some game ]}.

End Part001Sample.

(** * Sample users, messages and games *)

Definition alice : User := {| Username := "alice"; FirstName := "Alice"; ID := 1 |}.

(** A user without a user name: [getPlayerID] falls back to the first name. *)
Definition bob : User := {| Username := ""; FirstName := "Bob"; ID := 2 |}.

Definition carol : User := {| Username := "carol"; FirstName := ""; ID := 3 |}.

Definition says (u : User) : Message := {| ChatID := 7; Sender := u |}.

(** A user with neither a user name nor a first name. *)
Definition nameless (id : Z) : User := {| Username := ""; FirstName := ""; ID := id |}.

Module Sample.
Import Part000.

(** Alice's game as [/create] leaves it, with the bullet in chamber [draw]. *)
Definition solo (draw : Z) : Game :=
  {| Players := ["alice"]; Bullet := draw; CurrentPos := 0; PullCount := 0;
     IsActive := true; Skips := {[ "alice" := 2 ]}; HasPulledOnTurn := false |}.

(** After Bob has joined. *)
Definition duo (draw : Z) : Game :=
  {| Players := ["alice"; "Bob"]; Bullet := draw; CurrentPos := 0; PullCount := 0;
     IsActive := true; Skips := <["Bob" := 2]> {[ "alice" := 2 ]};
     HasPulledOnTurn := false |}.

(** After Alice has pulled once and survived. *)
Definition duoPulled (draw : Z) : Game :=
  {| Players := ["alice"; "Bob"]; Bullet := draw; CurrentPos := 0; PullCount := 1;
     IsActive := true; Skips := <["Bob" := 2]> {[ "alice" := 2 ]};
     HasPulledOnTurn := true |}.

(** Bob's own game as [/create] leaves it. *)
Definition bobAlone (draw : Z) : Game :=
  {| Players := ["Bob"]; Bullet := draw; CurrentPos := 0; PullCount := 0;
     IsActive := true; Skips := {[ "Bob" := 2 ]}; HasPulledOnTurn := false |}.

(** Alice and Bob have each skipped once, Alice has pulled on the third
    turn, and then Carol has joined. *)
Definition handedOver : Game :=
  {| Players := ["alice"; "Bob"; "carol"]; Bullet := 5; CurrentPos := 2;
     PullCount := 1; IsActive := true;
     Skips := <["carol" := 2]> (<["Bob" := 1]> {[ "alice" := 1 ]});
     HasPulledOnTurn := true |}.

Definition room (game : Game) : Registry := {[ 7 := Some game ]}.

(** Alice alone, five pulls survived. *)
Definition fiveSurvived : Game :=
  {| Players := ["alice"]; Bullet := 5; CurrentPos := 0; PullCount := 5;
     IsActive := true; Skips := {[ "alice" := 2 ]}; HasPulledOnTurn := true |}.

(** Alice and Bob, and Carol who has joined before anyone moved. *)
Definition withCarol : Game :=
  {| Players := ["alice"; "Bob"; "carol"]; Bullet := 3; CurrentPos := 0;
     PullCount := 0; IsActive := true;
     Skips := <["carol" := 2]> (<["Bob" := 2]> {[ "alice" := 2 ]});
     HasPulledOnTurn := false |}.

End Sample.

(** * Further invariants of [src/unnamed/part_000] *)

(** The skip table has an entry for exactly the players of the roster. *)
Definition skipsMatchRoster (game : Part000.Game) : Prop :=
  ∀ player, player ∈ Part000.Players game ↔ is_Some (Part000.Skips game !! player).

(** * Facts about [src/unnamed/part_000] *)

Section Part000Facts.
Import Part000.

Lemma wrap_small z : min_int <= z <= max_int → wrap z = z.
Proof.
  unfold wrap, min_int, max_int. intros Hz.
  rewrite Z.mod_small by lia. lia.
Qed.

Lemma inRoster_elem playerID players :
  inRoster playerID players = true ↔ playerID ∈ players.
Proof.
  induction players as [|p ps IH]; simpl.
  - split; [discriminate | intros H; inversion H].
  - destruct (String.eqb p playerID) eqn:E.
    + apply String.eqb_eq in E. subst. split; [intros _; left | done].
    + apply String.eqb_neq in E. rewrite IH. split.
      * intros H. by right.
      * intros H. inversion H; subst; [congruence | done].
Qed.

Lemma activeGame_active games id game :
  games !! id = Some (Some game) → IsActive game = true →
  activeGame games id = Done (Some game).
Proof. intros H Ha. unfold activeGame. by rewrite H, Ha. Qed.

Lemma activeGame_none games id :
  activeGame games id = Done None ↔
  games !! id = None ∨ ∃ game, games !! id = Some (Some game) ∧ IsActive game = false.
Proof.
  unfold activeGame. destruct (games !! id) as [[g|]|] eqn:E.
  - destruct (IsActive g) eqn:Ea; split.
    + discriminate.
    + intros [?|(g' & Hg & Hf)]; [discriminate | congruence].
    + intros _. right. eauto.
    + done.
  - split; [discriminate | intros [?|(g' & Hg & _)]; discriminate].
  - split; [by left | done].
Qed.

(** With a turn counter that is not negative, the handlers' index expression
    is [players[turnIndex mod len(players)]]. *)
Lemma playerOnTurn_mod game expected :
  0 <= CurrentPos game →
  Players game !! Z.to_nat (CurrentPos game mod len (Players game)) = Some expected →
  playerOnTurn game = Done expected.
Proof.
  intros Hpos Hl. unfold playerOnTurn, modulo, len in *.
  assert (Hlen : (0 < length (Players game))%nat).
  { destruct (Players game); [discriminate | simpl; lia]. }
  destruct (Z.eqb_spec (Z.of_nat (length (Players game))) 0) as [E|E]; [lia|].
  simpl. rewrite Z.rem_mod_nonneg by lia. unfold index.
  destruct (Z.ltb_spec (CurrentPos game mod Z.of_nat (length (Players game))) 0) as [L|L].
  - pose proof (Z.mod_pos_bound (CurrentPos game) (Z.of_nat (length (Players game)))). lia.
  - by rewrite Hl.
Qed.

(** What [playerOnTurn] returns is on the roster, which is then not empty. *)
Lemma playerOnTurn_elem game p :
  playerOnTurn game = Done p → p ∈ Players game.
Proof.
  unfold playerOnTurn, modulo, index.
  destruct (len (Players game) =? 0); [discriminate|]. simpl.
  destruct (Z.rem (CurrentPos game) (len (Players game)) <? 0); [discriminate|].
  destruct (Players game !! _) eqn:E; [|discriminate].
  intros [= <-]. by eapply list_elem_of_lookup_2.
Qed.

(** The next turn: when the counter can be incremented, the index expression
    is defined again. *)
Lemma playerOnTurn_next game game' p :
  playerOnTurn game = Done p →
  0 <= CurrentPos game < max_int →
  Players game' = Players game →
  CurrentPos game' = wrap (CurrentPos game + 1) →
  ∃ q, playerOnTurn game' = Done q.
Proof.
  intros Hp Hc Hpl Hcp. apply playerOnTurn_elem in Hp.
  rewrite wrap_small in Hcp by (unfold min_int, max_int in *; lia).
  assert (Hlen : (0 < length (Players game'))%nat).
  { rewrite Hpl. destruct (Players game); [inversion Hp | simpl; lia]. }
  destruct (lookup_lt_is_Some_2 (Players game')
              (Z.to_nat (CurrentPos game' mod len (Players game')))) as [q Hq].
  { unfold len.
    pose proof (Z.mod_pos_bound (CurrentPos game') (Z.of_nat (length (Players game')))).
    lia. }
  exists q. apply playerOnTurn_mod; [lia | done].
Qed.

(** Every handler but [/create] starts with the same guard and, past it,
    most read the player on turn and compare the sender with it. *)
Ltac past_guard Hentry Hactive :=
  rewrite (activeGame_active _ _ _ Hentry Hactive); cbn [bind].

Ltac on_turn Hturn :=
  rewrite Hturn; cbn [bind]; rewrite String.eqb_refl; cbn [negb].

(** Case analysis on the computation a [let*] in the goal waits for. *)
Ltac split_bind :=
  match goal with
  | |- context [bind ?x _] => destruct x; cbn [bind]
  end.

(** C9. In an active game with a turn counter that is not negative, a
    [/pull] by anyone but [players[turnIndex mod len(players)]] is answered
    with the not-your-turn message naming exactly that player, and the
    registry (so every field of every game) is returned as it was. *)
Theorem pull_not_your_turn m (games : Registry) game expected :
  games !! ChatID m = Some (Some game) →
  IsActive game = true →
  0 <= CurrentPos game →
  Players game !! Z.to_nat (CurrentPos game mod len (Players game)) = Some expected →
  getPlayerID (Sender m) ≠ expected →
  pull m games = Done (games, [NotYourTurnToPull expected]).
Proof.
  intros Hentry Hactive Hpos Hexp Hne. unfold pull.
  past_guard Hentry Hactive.
  rewrite (playerOnTurn_mod _ _ Hpos Hexp). cbn [bind].
  apply String.eqb_neq in Hne. by rewrite Hne.
Qed.

Lemma pull_not_your_turn_witness :
  pull (says bob) (Sample.room (Sample.duo 3))
  = Done (Sample.room (Sample.duo 3), [NotYourTurnToPull "alice"]).
Proof.
  apply (pull_not_your_turn (says bob) (Sample.room (Sample.duo 3)) (Sample.duo 3) "alice").
  - reflexivity.
  - reflexivity.
  - simpl. lia.
  - reflexivity.
  - vm_compute. discriminate.
Defined.

(** With one to five chambers left, the odds the handler computes print,
    to one decimal, as the exact quotient 100 / remainingChambers rounded
    to tenths, and so does the binary64 quotient 100.0 / remainingChambers.
    (As binary64 values the two differ in the last place at three
    chambers.) *)
Lemma odds_print_as_quotient r :
  1 <= r <= 5 →
  tenths (oddsPercentage r) = Some (round_half_even 1000 r) ∧
  tenths (hundredOver r) = Some (round_half_even 1000 r).
Proof.
  intros Hr.
  assert (H : r = 1 ∨ r = 2 ∨ r = 3 ∨ r = 4 ∨ r = 5) by lia.
  destruct H as [-> | [-> | [-> | [-> | ->]]]]; split; vm_compute; reflexivity.
Qed.

(** At three chambers the handler's product and the quotient are different
    binary64 values; both print as 33.3. *)
Example odds_at_three :
  oddsPercentage 3 ≠ hundredOver 3 ∧
  tenths (oddsPercentage 3) = Some 333 ∧ tenths (hundredOver 3) = Some 333.
Proof.
  split; [vm_compute; discriminate|]. split; vm_compute; reflexivity.
Qed.

Lemma remainingChambers_small game :
  0 <= PullCount game → 0 < 6 - PullCount game - 1 →
  remainingChambers game = 6 - (PullCount game + 1).
Proof.
  intros H0 H1. unfold remainingChambers.
  rewrite (wrap_small (6 - PullCount game)) by (unfold min_int, max_int; lia).
  rewrite wrap_small by (unfold min_int, max_int; lia). lia.
Qed.

(** ** The two fatal branches and the survival, by name *)

Lemma pull_by_branch m (games : Registry) :
  pull m games
  = let* branch := pullBranch m games in
    match branch with
    | GuardFired => Done (games, [NoActiveGame])
    | WrongPlayer currentPlayer => Done (games, [NotYourTurnToPull currentPlayer])
    | BulletHit | ChambersExhausted =>
        Done (delete (ChatID m) games, [Bang (Username (Sender m))])
    | Survived game currentPlayer =>
        Done (<[ChatID m :=
                  Some {| Players := Players game;
                          Bullet := Bullet game;
                          CurrentPos := CurrentPos game;
                          PullCount := wrap (PullCount game + 1);
                          IsActive := IsActive game;
                          Skips := Skips game;
                          HasPulledOnTurn := true |}]> games,
              [Survives (getPlayerID (Sender m)) (remainingChambers game)
                        (oddsPercentage (remainingChambers game))
                        (skipsOf game currentPlayer)])
    end.
Proof.
  unfold pull, pullBranch.
  destruct (activeGame games (ChatID m)) as [[game|]|]; cbn [bind]; [|done|done].
  destruct (playerOnTurn game); cbn [bind]; [|done].
  destruct (negb _); [done|].
  destruct (_ =? _); [done|].
  by destruct (_ <=? _).
Qed.

(** ** A command from the player on turn

    The facts of this section share their setting: the chat of message [m]
    has an active game, and the sender of [m] is the player on turn. *)

Section OnTurn.

Variables (m : Message) (games : Registry) (game : Game).
Hypothesis Hentry : games !! ChatID m = Some (Some game).
Hypothesis Hactive : IsActive game = true.
Hypothesis Hturn : playerOnTurn game = Done (getPlayerID (Sender m)).

(** The two refusals in terms of the stored flag.  In an active game,
    when the player on turn tries to end the turn: [/skip] is refused with
    the already-pulled message exactly when [HasPulledOnTurn] is set,
    [/pass] is refused with the must-pull-first message exactly when it is
    not set, either refusal leaves the registry as it was, and exactly one
    of the two refusals applies.  (Whether the flag stands for a pull of the
    player on turn is another matter: see [join_hands_the_turn_over].) *)
Theorem skip_pass_refusals :
  ((∃ games', skip m games = Done (games', [AlreadyPulled]))
     ↔ HasPulledOnTurn game = true) ∧
  ((∃ games', pass m games = Done (games', [MustPullFirst]))
     ↔ HasPulledOnTurn game = false) ∧
  (∀ games', skip m games = Done (games', [AlreadyPulled]) → games' = games) ∧
  (∀ games', pass m games = Done (games', [MustPullFirst]) → games' = games) ∧
  ((skip m games = Done (games, [AlreadyPulled])
      ∧ ¬ ∃ games', pass m games = Done (games', [MustPullFirst]))
   ∨ (pass m games = Done (games, [MustPullFirst])
      ∧ ¬ ∃ games', skip m games = Done (games', [AlreadyPulled]))).
Proof.
  assert (Hskip : if HasPulledOnTurn game
                  then skip m games = Done (games, [AlreadyPulled])
                  else ∀ games', skip m games ≠ Done (games', [AlreadyPulled])).
  { unfold skip. past_guard Hentry Hactive. on_turn Hturn.
    destruct (HasPulledOnTurn game); [done|].
    intros games'. destruct (_ <=? 0); [discriminate|].
    split_bind; discriminate. }
  assert (Hpass : if HasPulledOnTurn game
                  then ∀ games', pass m games ≠ Done (games', [MustPullFirst])
                  else pass m games = Done (games, [MustPullFirst])).
  { unfold pass. past_guard Hentry Hactive. on_turn Hturn.
    destruct (HasPulledOnTurn game); cbn [negb]; [|done].
    intros games'. split_bind; discriminate. }
  destruct (HasPulledOnTurn game).
  - repeat split.
    + eauto.
    + intros [games' H]. by apply Hpass in H.
    + discriminate.
    + intros games' H. congruence.
    + intros games' H. by apply Hpass in H.
    + left. split; [done|]. intros [games' H]. by apply Hpass in H.
  - repeat split.
    + intros [games' H]. by apply Hskip in H.
    + discriminate.
    + eauto.
    + intros games' H. by apply Hskip in H.
    + intros games' H. congruence.
    + right. split; [done|]. intros [games' H]. by apply Hskip in H.
Qed.

(** C8. In an active game, a [/skip] by the player on turn who has not
    pulled this turn: with no skip left it is refused and nothing changes;
    with a skip left it takes exactly one skip from that player (the count
    stays at zero or above, the other players' counts are untouched) and
    moves the turn counter on by exactly one, clears [HasPulledOnTurn] and
    leaves [PullCount], [Bullet] and the roster alone. *)
Theorem skip_effect :
  HasPulledOnTurn game = false →
  0 <= CurrentPos game < max_int →
  skipsOf game (getPlayerID (Sender m)) <= max_int →
  (skipsOf game (getPlayerID (Sender m)) <= 0 →
     skip m games = Done (games, [NoSkipsRemaining])) ∧
  (0 < skipsOf game (getPlayerID (Sender m)) →
     ∃ game' nextPlayer,
       skip m games
       = Done (<[ChatID m := Some game']> games,
               [Skipped (getPlayerID (Sender m))
                        (skipsOf game (getPlayerID (Sender m)) - 1) nextPlayer]) ∧
       skipsOf game' (getPlayerID (Sender m))
       = skipsOf game (getPlayerID (Sender m)) - 1 ∧
       0 <= skipsOf game' (getPlayerID (Sender m)) ∧
       (∀ other, other ≠ getPlayerID (Sender m) →
                 Skips game' !! other = Skips game !! other) ∧
       CurrentPos game' = CurrentPos game + 1 ∧
       playerOnTurn game' = Done nextPlayer ∧
       HasPulledOnTurn game' = false ∧
       PullCount game' = PullCount game ∧
       Bullet game' = Bullet game ∧
       Players game' = Players game ∧
       IsActive game' = true).
Proof.
  intros Hflag Hpos Hmax.
  set (p := getPlayerID (Sender m)) in *.
  split; intros Hk.
  - unfold skip. past_guard Hentry Hactive. on_turn Hturn. rewrite Hflag.
    destruct (Z.leb_spec (skipsOf game p) 0); [done | lia].
  - unfold skip. past_guard Hentry Hactive. on_turn Hturn. rewrite Hflag.
    destruct (Z.leb_spec (skipsOf game p) 0); [lia|].
    assert (Hw : wrap (skipsOf game p - 1) = skipsOf game p - 1).
    { apply wrap_small. unfold min_int, max_int in *. lia. }
    rewrite Hw.
    set (game' := Build_Game _ _ _ _ _ _ _).
    destruct (playerOnTurn_next game game' p Hturn Hpos eq_refl eq_refl) as [q Hq].
    rewrite Hq. cbn [bind].
    assert (Hnew : skipsOf game' p = skipsOf game p - 1).
    { unfold skipsOf at 1. subst game'. cbn [Skips]. by rewrite lookup_insert_eq. }
    exists game', q. rewrite Hnew.
    split; [done|]. split; [done|]. split; [lia|].
    split; [intros other Ho; subst game'; cbn [Skips]; by rewrite lookup_insert_ne|].
    split; [subst game'; cbn; apply wrap_small; unfold min_int, max_int in *; lia|].
    subst game'. by cbn.
Qed.

(** C4. In an active game, when the player on turn pulls, [PullCount]
    differs from [Bullet] and a chamber remains after this pull: [PullCount]
    goes up by exactly one and [HasPulledOnTurn] is set; the message reports
    6 minus the new [PullCount] chambers and odds that print, to one
    decimal, as 100 over that number does (the exact quotient and the
    binary64 quotient 100.0 / remainingChambers alike); the turn counter,
    roster, bullet and skips stay, so the same player is on turn, and a
    further [/pull] or [/pass] of theirs is not refused as out of turn, nor
    is the [/pass] refused for want of a pull. *)
Theorem pull_survives :
  PullCount game ≠ Bullet game →
  0 <= PullCount game →
  0 < 6 - PullCount game - 1 →
  ∃ game',
    pull m games
    = Done (<[ChatID m := Some game']> games,
            [Survives (getPlayerID (Sender m)) (6 - PullCount game')
                      (oddsPercentage (6 - PullCount game'))
                      (skipsOf game (getPlayerID (Sender m)))]) ∧
    PullCount game' = PullCount game + 1 ∧
    HasPulledOnTurn game' = true ∧
    tenths (oddsPercentage (6 - PullCount game'))
    = Some (round_half_even 1000 (6 - PullCount game')) ∧
    tenths (hundredOver (6 - PullCount game'))
    = Some (round_half_even 1000 (6 - PullCount game')) ∧
    CurrentPos game' = CurrentPos game ∧
    playerOnTurn game' = Done (getPlayerID (Sender m)) ∧
    Players game' = Players game ∧
    Bullet game' = Bullet game ∧
    Skips game' = Skips game ∧
    IsActive game' = true ∧
    (∀ games' who, pull m (<[ChatID m := Some game']> games)
                   ≠ Done (games', [NotYourTurnToPull who])) ∧
    (∀ games' who, pass m (<[ChatID m := Some game']> games)
                   ≠ Done (games', [NotYourTurnToPlay who])) ∧
    (∀ games', pass m (<[ChatID m := Some game']> games)
               ≠ Done (games', [MustPullFirst])).
Proof.
  intros Hne H0 H1.
  pose proof (remainingChambers_small game H0 H1) as Hrem.
  assert (Hw : wrap (PullCount game + 1) = PullCount game + 1).
  { apply wrap_small. unfold min_int, max_int. lia. }
  unfold pull at 1. past_guard Hentry Hactive. on_turn Hturn.
  destruct (Z.eqb_spec (PullCount game) (Bullet game)); [done|].
  destruct (Z.leb_spec (remainingChambers game) 0); [lia|].
  rewrite Hrem, Hw.
  set (game' := Build_Game _ _ _ _ _ _ _).
  assert (Hturn' : playerOnTurn game' = Done (getPlayerID (Sender m))) by exact Hturn.
  assert (Hentry' : <[ChatID m := Some game']> games !! ChatID m = Some (Some game'))
    by apply lookup_insert_eq.
  assert (Hactive' : IsActive game' = true) by exact Hactive.
  exists game'. split; [done|].
  split; [done|]. split; [done|].
  split; [apply odds_print_as_quotient; subst game'; cbn; lia|].
  split; [apply odds_print_as_quotient; subst game'; cbn; lia|].
  split; [done|]. split; [done|]. split; [done|]. split; [done|].
  split; [done|]. split; [done|].
  split; [|split].
  - intros games' who. unfold pull. past_guard Hentry' Hactive'. on_turn Hturn'.
    repeat (match goal with |- context [if ?b then _ else _] => destruct b end);
      discriminate.
  - intros games' who. unfold pass. past_guard Hentry' Hactive'. on_turn Hturn'.
    subst game'. cbn [HasPulledOnTurn negb]. split_bind; discriminate.
  - intros games'. unfold pass. past_guard Hentry' Hactive'. on_turn Hturn'.
    subst game'. cbn [HasPulledOnTurn negb]. split_bind; discriminate.
Qed.

(** X12. In an active game, a [/pull] by the player on turn with
    [PullCount] equal to [Bullet] takes the bullet branch: the entry is
    deleted and the one message sent is the death notice, which carries the
    sender's [Username] field. *)
Lemma pull_fatal :
  PullCount game = Bullet game →
  pullBranch m games = Done BulletHit ∧
  pull m games = Done (delete (ChatID m) games, [Bang (Username (Sender m))]) ∧
  delete (ChatID m) games !! ChatID m = None.
Proof.
  intros Heq.
  assert (Hb : pullBranch m games = Done BulletHit).
  { unfold pullBranch. past_guard Hentry Hactive. on_turn Hturn.
    by destruct (Z.eqb_spec (PullCount game) (Bullet game)). }
  split; [done|]. split; [by rewrite pull_by_branch, Hb | apply lookup_delete_eq].
Qed.

End OnTurn.

Lemma skip_pass_refusals_witness :
  skip (says alice) (Sample.room (Sample.duoPulled 3))
  = Done (Sample.room (Sample.duoPulled 3), [AlreadyPulled]).
Proof.
  destruct (skip_pass_refusals (says alice) (Sample.room (Sample.duoPulled 3))
              (Sample.duoPulled 3) eq_refl eq_refl eq_refl)
    as (_ & _ & _ & _ & [[H _] | [_ H]]).
  - exact H.
  - exfalso. apply H. eexists. reflexivity.
Defined.

Lemma skip_effect_witness :
  ∃ game' nextPlayer,
    skip (says alice) (Sample.room (Sample.duo 3))
    = Done (<[7 := Some game']> (Sample.room (Sample.duo 3)),
            [Skipped "alice" 1 nextPlayer]) ∧
    CurrentPos game' = 1 ∧ PullCount game' = 0.
Proof.
  assert (Hpos : 0 <= CurrentPos (Sample.duo 3) < max_int).
  { vm_compute. split; [discriminate | reflexivity]. }
  assert (Hmax : skipsOf (Sample.duo 3) (getPlayerID (Sender (says alice))) <= max_int).
  { vm_compute. discriminate. }
  destruct (skip_effect (says alice) (Sample.room (Sample.duo 3)) (Sample.duo 3)
              eq_refl eq_refl eq_refl eq_refl Hpos Hmax) as [_ H].
  destruct H as (game' & q & H1 & _ & _ & _ & H5 & _ & _ & H8 & _).
  { reflexivity. }
  exists game', q. split; [exact H1 | split; [exact H5 | exact H8]].
Defined.

Lemma pull_survives_witness :
  ∃ game',
    pull (says alice) (Sample.room (Sample.duo 3))
    = Done (<[7 := Some game']> (Sample.room (Sample.duo 3)),
            [Survives "alice" 5 (oddsPercentage 5) 2]) ∧
    PullCount game' = 1 ∧ HasPulledOnTurn game' = true ∧ CurrentPos game' = 0.
Proof.
  assert (Hne : PullCount (Sample.duo 3) ≠ Bullet (Sample.duo 3)).
  { vm_compute. discriminate. }
  assert (H0 : 0 <= PullCount (Sample.duo 3)) by (vm_compute; discriminate).
  assert (H1 : 0 < 6 - PullCount (Sample.duo 3) - 1) by reflexivity.
  destruct (pull_survives (says alice) (Sample.room (Sample.duo 3)) (Sample.duo 3)
              eq_refl eq_refl eq_refl Hne H0 H1)
    as (game' & Hp & Hn & Hf & _ & _ & Hc & _).
  exists game'. rewrite Hn in Hp. split; [exact Hp|].
  split; [exact Hn | split; [exact Hf | exact Hc]].
Defined.

(** [/skip] and [/pass] never write [PullCount] or [Bullet], of any game. *)
Lemma skip_pass_keep_pulls m (games games' : Registry) sent id game game' :
  skip m games = Done (games', sent) ∨ pass m games = Done (games', sent) →
  games !! id = Some (Some game) →
  games' !! id = Some (Some game') →
  PullCount game' = PullCount game ∧ Bullet game' = Bullet game.
Proof.
  intros Hrun Hg Hg'.
  assert (Hsame : games' = games →
                  PullCount game' = PullCount game ∧ Bullet game' = Bullet game).
  { intros ->. rewrite Hg in Hg'. by injection Hg' as ->. }
  assert (Hwrite : ∀ new, PullCount new = PullCount game ∨ ChatID m ≠ id →
                          Bullet new = Bullet game ∨ ChatID m ≠ id →
                          games' = <[ChatID m := Some new]> games →
                          PullCount game' = PullCount game ∧ Bullet game' = Bullet game).
  { intros new Hn Hb ->. destruct (decide (ChatID m = id)) as [E|E].
    - rewrite E, lookup_insert_eq in Hg'. injection Hg' as <-.
      destruct Hn, Hb; done.
    - rewrite lookup_insert_ne in Hg' by done. rewrite Hg in Hg'.
      by injection Hg' as ->. }
  destruct Hrun as [Hrun | Hrun]; revert Hrun; [unfold skip | unfold pass];
    (destruct (activeGame games (ChatID m)) as [[g|]|] eqn:Ha; cbn [bind];
     [| intros [= <- _]; by apply Hsame | discriminate ]);
    (destruct (playerOnTurn g); cbn [bind]; [|discriminate]);
    (destruct (negb (String.eqb _ _)); [intros [= <- _]; by apply Hsame|]).
  - destruct (HasPulledOnTurn g); [intros [= <- _]; by apply Hsame|].
    destruct (_ <=? 0); [intros [= <- _]; by apply Hsame|].
    split_bind; [|discriminate]. intros [= <- _].
    unfold activeGame in Ha. destruct (games !! ChatID m) as [[g0|]|] eqn:E;
      [|discriminate|discriminate].
    destruct (IsActive g0); [|discriminate]. injection Ha as ->.
    eapply Hwrite; [| |reflexivity]; cbn.
    + destruct (decide (ChatID m = id)) as [<-|]; [left|by right]. congruence.
    + destruct (decide (ChatID m = id)) as [<-|]; [left|by right]. congruence.
  - destruct (negb (HasPulledOnTurn g)); [intros [= <- _]; by apply Hsame|].
    split_bind; [|discriminate]. intros [= <- _].
    unfold activeGame in Ha. destruct (games !! ChatID m) as [[g0|]|] eqn:E;
      [|discriminate|discriminate].
    destruct (IsActive g0); [|discriminate]. injection Ha as ->.
    eapply Hwrite; [| |reflexivity]; cbn.
    + destruct (decide (ChatID m = id)) as [<-|]; [left|by right]. congruence.
    + destruct (decide (ChatID m = id)) as [<-|]; [left|by right]. congruence.
Qed.

(** ** The invariant *)

(** Under the invariant the guard of a handler has two outcomes, and no
    panic: no entry, or an entry with an active game. *)
Lemma guard_cases (games : Registry) id :
  registryOk games →
  (games !! id = None ∧ activeGame games id = Done None
   ∧ existsAndActive games id = Done false) ∨
  (∃ game, games !! id = Some (Some game) ∧ gameOk game
           ∧ activeGame games id = Done (Some game)
           ∧ existsAndActive games id = Done true).
Proof.
  intros Hok. unfold activeGame, existsAndActive.
  destruct (games !! id) as [entry|] eqn:E; [|by left].
  destruct (Hok _ _ E) as (game & -> & Hg). right. exists game.
  destruct Hg as (Ha & ?). by rewrite Ha.
Qed.

Lemma gameOk_fields game :
  IsActive game = true →
  0 <= PullCount game <= Bullet game →
  Bullet game < 6 →
  map_Forall (fun _ skips => 0 <= skips <= 2) (Skips game) →
  gameOk game.
Proof. intros. by split; [|split; [|split]]. Qed.

Lemma stepShape_same m (games : Registry) : stepShape m games games.
Proof. by left. Qed.

Lemma stepShape_delete m (games : Registry) :
  stepShape m games (delete (ChatID m) games).
Proof. right. by left. Qed.

Lemma stepShape_move m (games : Registry) game game' :
  games !! ChatID m = Some (Some game) →
  gameStep (getPlayerID (Sender m)) game game' →
  stepShape m games (<[ChatID m := Some game']> games).
Proof. intros Hg Hs. right. right. right. by exists game, game'. Qed.

Create HintDb shape.
#[local] Hint Resolve stepShape_same stepShape_delete : shape.

(** A handler that returns [games] itself or [delete id games]. *)
Ltac unchanged_or_deleted := intros [= <- _]; auto with shape.

(** The test [getPlayerID(m.Sender) != currentPlayer], decided. *)
Ltac sender_is cur E :=
  match goal with
  | |- context [String.eqb ?a cur] =>
      destruct (String.eqb a cur) eqn:E; cbn [negb];
      [apply String.eqb_eq in E; subst cur | unchanged_or_deleted]
  end.

Lemma handle_shape c m (games games' : Registry) sent :
  registryOk games →
  drawInRange c →
  handle c m games = Done (games', sent) →
  stepShape m games games'.
Proof.
  intros Hok Hdraw.
  destruct (guard_cases games (ChatID m) Hok)
    as [(Hnone & Ha & He) | (game & Hentry & Hg & Ha & He)].
  - (* no entry: only [/create] writes *)
    destruct c; cbn [handle];
      unfold create, join, start, skip, pass, pull, stop, help, status;
      rewrite ?Ha, ?He; cbn [bind]; intros [= <- _];
      auto with shape.
    right. right. left. split; [done|]. by exists draw.
  - destruct c; cbn [handle];
      unfold create, join, start, skip, pass, pull, stop, help, status;
      rewrite ?Ha, ?He; cbn [bind].
    + unchanged_or_deleted.
    + destruct (inRoster _ _) eqn:E; [unchanged_or_deleted|]. intros [= <- _].
      eapply stepShape_move; [done|]. by apply step_join.
    + destruct (_ <? 2); [unchanged_or_deleted|].
      split_bind; [|discriminate]. unchanged_or_deleted.
    + destruct (playerOnTurn game) as [cur|] eqn:Hturn; cbn [bind]; [|discriminate].
      sender_is cur E.
      destruct (HasPulledOnTurn game) eqn:Hflag; [unchanged_or_deleted|].
      destruct (Z.leb_spec (skipsOf game (getPlayerID (Sender m))) 0);
        [unchanged_or_deleted|].
      split_bind; [|discriminate]. intros [= <- _].
      eapply stepShape_move; [done|]. by apply step_skip.
    + destruct (playerOnTurn game) as [cur|] eqn:Hturn; cbn [bind]; [|discriminate].
      sender_is cur E.
      destruct (HasPulledOnTurn game) eqn:Hflag; cbn [negb]; [|unchanged_or_deleted].
      split_bind; [|discriminate]. intros [= <- _].
      eapply stepShape_move; [done|]. by apply step_pass.
    + destruct (playerOnTurn game) as [cur|] eqn:Hturn; cbn [bind]; [|discriminate].
      sender_is cur E.
      destruct (Z.eqb_spec (PullCount game) (Bullet game)); [unchanged_or_deleted|].
      destruct (Z.leb_spec (remainingChambers game) 0); [unchanged_or_deleted|].
      intros [= <- _].
      eapply stepShape_move; [done|]. by apply step_pull.
    + unchanged_or_deleted.
    + unchanged_or_deleted.
    + split_bind; [|discriminate]. unchanged_or_deleted.
Qed.

Lemma gameOk_new draw playerID : 0 <= draw < 6 → gameOk (newGame draw playerID).
Proof.
  intros Hd. apply gameOk_fields; cbn; [done | lia | lia |].
  by apply map_Forall_singleton.
Qed.

(** A move keeps the invariant and the bullet, and never lowers the pulls. *)
Lemma gameOk_step sender game game' :
  gameOk game →
  gameStep sender game game' →
  gameOk game' ∧ PullCount game <= PullCount game' ∧ Bullet game' = Bullet game.
Proof.
  intros (Hact & Hpulls & Hbul & Hskips) Hstep.
  destruct Hstep as [game Hnew | game Hturn Hflag Hleft | game Hturn Hflag
                    | game Hturn Hne Hrem]; cbn.
  - split; [|split; [lia | done]].
    apply gameOk_fields; cbn; [done | lia | lia |]. by apply map_Forall_insert_2.
  - split; [|split; [lia | done]].
    apply gameOk_fields; cbn; [done | lia | lia |].
    apply map_Forall_insert_2; [|done].
    unfold skipsOf in *.
    destruct (Skips game !! sender) as [k|] eqn:Ek; cbn in *; [|lia].
    specialize (Hskips _ _ Ek). cbn in Hskips.
    rewrite wrap_small by (unfold min_int, max_int; lia). lia.
  - split; [|split; [lia | done]]. by apply gameOk_fields.
  - assert (Hw : wrap (PullCount game + 1) = PullCount game + 1).
    { apply wrap_small. unfold min_int, max_int. lia. }
    rewrite Hw. split; [|split; [lia | done]].
    apply gameOk_fields; cbn; rewrite ?Hw; [done | lia | lia | done].
Qed.

Lemma stepShape_ok m (games games' : Registry) :
  registryOk games → stepShape m games games' → registryOk games'.
Proof.
  intros Hok Hshape.
  assert (Hwrite : ∀ new, gameOk new →
                          registryOk (<[ChatID m := Some new]> games)).
  { intros new Hnew k entry Hk. destruct (decide (ChatID m = k)) as [<-|Hne].
    - rewrite lookup_insert_eq in Hk. injection Hk as <-. eauto.
    - rewrite lookup_insert_ne in Hk by done. eauto. }
  destruct Hshape as [-> | [-> | [(_ & draw & Hd & ->)
                                 | (game & game' & Hg & Hstep & ->)]]].
  - done.
  - intros k entry Hk. destruct (decide (ChatID m = k)) as [<-|Hne].
    + by rewrite lookup_delete_eq in Hk.
    + rewrite lookup_delete_ne in Hk by done. eauto.
  - apply Hwrite. by apply gameOk_new.
  - apply Hwrite. destruct (Hok _ _ Hg) as (g & [= <-] & Hgame).
    by destruct (gameOk_step _ _ _ Hgame Hstep).
Qed.

Lemma stepShape_game m k (games games' : Registry) game game' :
  registryOk games →
  stepShape m games games' →
  games !! k = Some (Some game) →
  games' !! k = Some (Some game') →
  PullCount game <= PullCount game' ∧ Bullet game' = Bullet game.
Proof.
  intros Hok Hshape Hg Hg'.
  destruct Hshape as [-> | [-> | [(Hnone & draw & Hd & ->)
                                 | (old & new & Hold & Hstep & ->)]]].
  - rewrite Hg in Hg'. injection Hg' as <-. lia.
  - destruct (decide (ChatID m = k)) as [<-|Hne].
    + by rewrite lookup_delete_eq in Hg'.
    + rewrite lookup_delete_ne in Hg' by done. rewrite Hg in Hg'.
      injection Hg' as <-. lia.
  - destruct (decide (ChatID m = k)) as [<-|Hne]; [congruence|].
    rewrite lookup_insert_ne in Hg' by done. rewrite Hg in Hg'.
    injection Hg' as <-. lia.
  - destruct (decide (ChatID m = k)) as [<-|Hne].
    + rewrite lookup_insert_eq in Hg'. injection Hg' as <-.
      rewrite Hold in Hg. injection Hg as <-.
      destruct (Hok _ _ Hold) as (g & [= <-] & Hgame).
      by destruct (gameOk_step _ _ _ Hgame Hstep) as (_ & ? & ?).
    + rewrite lookup_insert_ne in Hg' by done. rewrite Hg in Hg'.
      injection Hg' as <-. lia.
Qed.

Lemma reachable_ok (games : Registry) : reachable games → registryOk games.
Proof.
  induction 1 as [|games c m games' sent _ IH Hdraw Hrun].
  - intros id entry H. by rewrite lookup_empty in H.
  - eapply stepShape_ok; [exact IH|]. by eapply handle_shape.
Qed.

(** A run from the empty registry that obeys the draws ends in a reachable
    registry. *)
Lemma run_reachable events (games games' : Registry) sent :
  reachable games →
  Forall (fun e => drawInRange (fst e)) events →
  run events games = Done (games', sent) →
  reachable games'.
Proof.
  revert games games' sent.
  induction events as [|[c m] rest IH]; intros games games' sent Hr Hd; cbn [run].
  - by intros [= <- _].
  - inversion Hd as [|? ? Hc Hrest]; subst.
    destruct (handle c m games) as [[g1 s1]|] eqn:E; cbn [bind]; [|discriminate].
    destruct (run rest g1) as [[g2 s2]|] eqn:E2; cbn [bind fst snd];
      [|rewrite E2; discriminate].
    rewrite E2. cbn [bind fst snd]. intros [= <- _].
    eapply IH; [|exact Hrest|exact E2].
    by eapply reachable_step.
Qed.

(** ** The turn counter *)

Lemma sumSkips_insert_notin skips players player v :
  player ∉ players →
  sumSkips (<[player := v]> skips) players = sumSkips skips players.
Proof.
  induction players as [|q rest IH]; intros Hnot; cbn; [done|].
  apply not_elem_of_cons in Hnot as [Hne Hrest].
  rewrite lookup_insert_ne by done. by rewrite IH.
Qed.

Lemma sumSkips_app skips players player :
  sumSkips skips (players ++ [player])
  = sumSkips skips players + default 0 (skips !! player).
Proof. induction players as [|q rest IH]; cbn; [lia | rewrite IH; lia]. Qed.

Lemma sumSkips_insert_in skips players player v :
  NoDup players →
  player ∈ players →
  sumSkips (<[player := v]> skips) players
  = sumSkips skips players - default 0 (skips !! player) + v.
Proof.
  induction 1 as [|q rest Hq Hnd IH]; intros Hin; [by inversion Hin|].
  cbn. destruct (decide (player = q)) as [->|Hne].
  - rewrite lookup_insert_eq, sumSkips_insert_notin by done. cbn. lia.
  - apply elem_of_cons in Hin as [?|Hin]; [done|].
    rewrite lookup_insert_ne by done. rewrite IH by done. lia.
Qed.

Lemma sumSkips_nonneg skips players :
  map_Forall (fun _ k => 0 <= k <= 2) skips → 0 <= sumSkips skips players.
Proof.
  intros Hall. induction players as [|q rest IH]; cbn; [lia|].
  destruct (skips !! q) as [k|] eqn:Ek; cbn; [|lia].
  specialize (Hall _ _ Ek). cbn in Hall. lia.
Qed.

Lemma len_app players player : len (players ++ [player]) = len players + 1.
Proof. unfold len. rewrite length_app. cbn. lia. Qed.

Lemma turnOk_new draw playerID : turnOk (newGame draw playerID).
Proof.
  split; [done|]. split; [apply NoDup_singleton|].
  intros _. cbn. rewrite lookup_singleton_eq. cbn. unfold len. cbn. lia.
Qed.

(** A move keeps the turn invariant. *)
Lemma turnOk_step sender game game' :
  gameOk game →
  turnOk game →
  gameStep sender game game' →
  turnOk game'.
Proof.
  intros (Hact & Hpulls & Hbul & Hskips) (Hne & Hnd & Hbound) Hstep.
  pose proof (sumSkips_nonneg (Skips game) (Players game) Hskips) as Hsum.
  assert (Hflag01 : 0 <= flag game <= 1).
  { unfold flag. destruct (HasPulledOnTurn game); lia. }
  unfold turnOk, flag in *.
  destruct Hstep as [game Hnew | game Hturn Hflag Hleft | game Hturn Hflag
                    | game Hturn Hdiff Hrem];
    cbn [Players CurrentPos PullCount Skips HasPulledOnTurn].
  - (* join *)
    assert (Hnot : sender ∉ Players game).
    { intros Hin. apply inRoster_elem in Hin. congruence. }
    split; [by destruct (Players game)|]. split.
    + apply NoDup_app. split; [done|]. split; [|apply NoDup_singleton].
      intros x Hx Hx'. apply list_elem_of_singleton in Hx'. by subst.
    + rewrite len_app. intros Hlen. destruct Hbound as [Hpos Hb]; [lia|].
      split; [done|].
      rewrite sumSkips_app, sumSkips_insert_notin, lookup_insert_eq by done.
      cbn. lia.
  - (* skip *)
    split; [done|]. split; [done|]. intros Hlen.
    destruct (Hbound Hlen) as [Hpos Hb].
    assert (Hin : sender ∈ Players game) by by apply playerOnTurn_elem.
    unfold skipsOf in *.
    assert (Hk : 0 < default 0 (Skips game !! sender) <= 2).
    { destruct (Skips game !! sender) as [k|] eqn:Ek; cbn in *; [|lia].
      specialize (Hskips _ _ Ek). cbn in Hskips. lia. }
    rewrite !wrap_small by (unfold min_int, max_int; lia).
    rewrite sumSkips_insert_in by done. rewrite Hflag in *. lia.
  - (* pass *)
    split; [done|]. split; [done|]. intros Hlen.
    destruct (Hbound Hlen) as [Hpos Hb].
    rewrite wrap_small by (unfold min_int, max_int; lia).
    rewrite Hflag in *. lia.
  - (* pull *)
    split; [done|]. split; [done|]. intros Hlen.
    destruct (Hbound Hlen) as [Hpos Hb].
    rewrite wrap_small by (unfold min_int, max_int; lia). lia.
Qed.

Lemma stepShape_turnOk m (games games' : Registry) :
  registryOk games → registryTurnOk games → stepShape m games games' →
  registryTurnOk games'.
Proof.
  intros Hok Hturn Hshape.
  assert (Hwrite : ∀ new, turnOk new →
                          registryTurnOk (<[ChatID m := Some new]> games)).
  { intros new Hnew k g Hk. destruct (decide (ChatID m = k)) as [<-|Hne].
    - rewrite lookup_insert_eq in Hk. by injection Hk as <-.
    - rewrite lookup_insert_ne in Hk by done. eauto. }
  destruct Hshape as [-> | [-> | [(_ & draw & Hd & ->)
                                 | (game & game' & Hg & Hstep & ->)]]].
  - done.
  - intros k g Hk. destruct (decide (ChatID m = k)) as [<-|Hne].
    + by rewrite lookup_delete_eq in Hk.
    + rewrite lookup_delete_ne in Hk by done. eauto.
  - apply Hwrite, turnOk_new.
  - apply Hwrite. destruct (Hok _ _ Hg) as (g & [= <-] & Hgame).
    eapply turnOk_step; [done | by eapply Hturn | done].
Qed.

Lemma reachable_turnOk (games : Registry) : reachable games → registryTurnOk games.
Proof.
  induction 1 as [|games c m games' sent Hr IH Hdraw Hrun].
  - intros id game H. by rewrite lookup_empty in H.
  - eapply stepShape_turnOk; [by apply reachable_ok | exact IH |].
    eapply handle_shape; [by apply reachable_ok | done | done].
Qed.

(** In every registry the program can reach, a game whose roster has a
    size a slice can have has a turn counter between 0 and two per player
    plus five, far from the largest [int]; its roster is not empty and has
    no duplicates. *)
Lemma turn_counter_bound (games : Registry) id game :
  reachable games →
  games !! id = Some (Some game) →
  len (Players game) < 2 ^ 61 →
  0 <= CurrentPos game <= 2 * len (Players game) + 5 ∧
  CurrentPos game < max_int ∧
  Players game ≠ [] ∧ NoDup (Players game).
Proof.
  intros Hr Hg Hlen.
  destruct (reachable_ok _ Hr _ _ Hg) as (g & [= <-] & _ & Hp & Hb & Hskips).
  destruct (reachable_turnOk _ Hr _ _ Hg) as (Hne & Hnd & Hbound).
  destruct (Hbound Hlen) as [Hpos Hle].
  pose proof (sumSkips_nonneg (Skips game) (Players game) Hskips).
  assert (0 <= flag game) by (unfold flag; destruct (HasPulledOnTurn game); lia).
  unfold max_int. repeat split; try done; lia.
Qed.

Lemma gameContinues_inv id (games games' : Registry) game :
  reachable games →
  gameContinues id games games' →
  games !! id = Some (Some game) →
  reachable games' ∧
  ∃ game', games' !! id = Some (Some game') ∧
           PullCount game <= PullCount game' ∧ Bullet game' = Bullet game.
Proof.
  intros Hr Hc Hg.
  induction Hc as [games | games games' games'' c m sent last Hc IH Hdraw Hrun Hlast].
  - split; [done|]. exists game. split; [done|]. lia.
  - destruct (IH Hr Hg) as (Hr' & mid & Hmid & Hp & Hb).
    split; [by eapply reachable_step|].
    exists last. split; [done|].
    pose proof (handle_shape c m games' games'' sent (reachable_ok _ Hr') Hdraw Hrun)
      as Hshape.
    destruct (stepShape_game _ id _ _ mid last (reachable_ok _ Hr') Hshape Hmid Hlast)
      as [Hp' Hb'].
    split; [lia | congruence].
Qed.

(** C5. In every registry the program can reach, every game has between 0
    and 6 pulls fired and a bullet chamber in [0, 6); and as long as the
    game lives on, whatever commands are handled, its [PullCount] never
    goes down and its [Bullet] stays the one drawn at creation. *)
Theorem pulls_and_bullet_invariant (games : Registry) id game :
  reachable games →
  games !! id = Some (Some game) →
  (0 <= PullCount game <= 6 ∧ 0 <= Bullet game < 6) ∧
  ∀ (games' : Registry) game',
    gameContinues id games games' →
    games' !! id = Some (Some game') →
    PullCount game <= PullCount game' ∧ Bullet game' = Bullet game.
Proof.
  intros Hr Hg. split.
  - destruct (reachable_ok _ Hr _ _ Hg) as (g & [= <-] & _ & Hp & Hb & _). lia.
  - intros games' game' Hc Hg'.
    destruct (gameContinues_inv id games games' game Hr Hc Hg)
      as (_ & last & Hlast & Hp & Hb).
    rewrite Hg' in Hlast. by injection Hlast as <-.
Qed.

Lemma duo_reachable : reachable (Sample.room (Sample.duo 3)).
Proof.
  apply (run_reachable [(Create 3, says alice); (Join, says bob)] ∅ _
           [Created "alice"; Joined "" ["alice"; "Bob"]]).
  - apply reachable_start.
  - repeat constructor; cbn; lia.
  - vm_compute. reflexivity.
Qed.

Lemma pulls_and_bullet_invariant_witness :
  (0 <= PullCount (Sample.duo 3) <= 6 ∧ 0 <= Bullet (Sample.duo 3) < 6) ∧
  PullCount (Sample.duo 3) <= PullCount (Sample.duoPulled 3) ∧
  Bullet (Sample.duoPulled 3) = Bullet (Sample.duo 3).
Proof.
  destruct (pulls_and_bullet_invariant (Sample.room (Sample.duo 3)) 7
              (Sample.duo 3) duo_reachable eq_refl) as [Hbounds Hlater].
  split; [exact Hbounds|].
  apply (Hlater (Sample.room (Sample.duoPulled 3)) (Sample.duoPulled 3));
    [|reflexivity].
  apply (gameContinues_step 7 _ (Sample.room (Sample.duo 3)) _ Pull (says alice)
           [Survives "alice" 5 (oddsPercentage 5) 2] (Sample.duoPulled 3)).
  - apply gameContinues_here.
  - exact I.
  - vm_compute. reflexivity.
  - reflexivity.
Defined.

(** C6. In no registry the program can reach does a [/pull] take the
    chamber-exhausted branch (the one behind the bullet test, taken when
    6 - PullCount - 1 is not positive). *)
Theorem defensive_branch_unreachable m (games : Registry) :
  reachable games → pullBranch m games ≠ Done ChambersExhausted.
Proof.
  intros Hr. apply reachable_ok in Hr.
  destruct (guard_cases games (ChatID m) Hr)
    as [(_ & Ha & _) | (game & _ & (_ & Hp & Hb & _) & Ha & _)];
    unfold pullBranch; rewrite Ha; cbn [bind]; [discriminate|].
  split_bind; [|discriminate].
  destruct (negb _); [discriminate|].
  destruct (Z.eqb_spec (PullCount game) (Bullet game)); [discriminate|].
  rewrite remainingChambers_small by lia.
  destruct (Z.leb_spec (6 - (PullCount game + 1)) 0); [lia | discriminate].
Qed.

Lemma defensive_branch_unreachable_witness :
  pullBranch (says alice) (Sample.room (Sample.duo 3)) ≠ Done ChambersExhausted.
Proof.
  exact (defensive_branch_unreachable (says alice) (Sample.room (Sample.duo 3))
           duo_reachable).
Defined.

(** In every registry the program can reach, every skip count is 0, 1 or
    2, and a player without an entry reads as 0. *)
Lemma skips_in_range (games : Registry) id game player :
  reachable games →
  games !! id = Some (Some game) →
  0 <= skipsOf game player <= 2.
Proof.
  intros Hr Hg.
  destruct (reachable_ok _ Hr _ _ Hg) as (g & [= <-] & _ & _ & _ & Hskips).
  unfold skipsOf. destruct (Skips game !! player) as [k|] eqn:Ek; cbn; [|lia].
  exact (Hskips _ _ Ek).
Qed.

(** In this revision no reachable registry holds a [nil] entry, and no
    handler panics on a nil game. *)
Lemma part000_no_nil (games : Registry) :
  reachable games →
  (∀ id entry, games !! id = Some entry → entry ≠ None) ∧
  (∀ c m, handle c m games ≠ Panic NilDereference).
Proof.
  intros Hr. apply reachable_ok in Hr. split.
  - intros id entry H. by destruct (Hr _ _ H) as (g & -> & _).
  - intros c m.
    assert (Hidx : ∀ l i, index l i ≠ Panic NilDereference).
    { intros l i. unfold index. destruct (i <? 0); [discriminate|].
      destruct (l !! _); discriminate. }
    assert (Hturn : ∀ g, playerOnTurn g ≠ Panic NilDereference).
    { intros g. unfold playerOnTurn, modulo. destruct (_ =? 0); [discriminate|].
      cbn [bind]. apply Hidx. }
    destruct (guard_cases games (ChatID m) Hr)
      as [(_ & Ha & He) | (game & _ & _ & Ha & He)];
      destruct c; cbn [handle];
      unfold create, join, start, skip, pass, pull, stop, help, status;
      rewrite ?Ha, ?He; cbn [bind]; try discriminate;
      repeat first
        [ discriminate
        | match goal with
          | |- context [bind (playerOnTurn ?g) _] =>
              let E := fresh in
              destruct (playerOnTurn g) as [?|[]] eqn:E; cbn [bind];
              try (by apply Hturn in E)
          | |- context [bind (index ?l ?i) _] =>
              let E := fresh in
              destruct (index l i) as [?|[]] eqn:E; cbn [bind];
              try (by apply Hidx in E)
          | |- context [if ?b then _ else _] => destruct b
          end ].
Qed.

(** X11. In this revision, with rosters of a size a slice can have, no
    handler panics at all in a registry the program can reach: no entry is
    [nil], the roster is never empty, and the index
    [CurrentPos % len(Players)] is never negative. *)
Lemma part000_no_panic (games : Registry) :
  reachable games →
  (∀ id game, games !! id = Some (Some game) → len (Players game) < 2 ^ 61) →
  ∀ c m e, handle c m games ≠ Panic e.
Proof.
  intros Hr Hsize c m e.
  destruct (guard_cases games (ChatID m) (reachable_ok _ Hr))
    as [(_ & Ha & He) | (game & Hg & _ & Ha & He)].
  - destruct c; cbn [handle];
      unfold create, join, start, skip, pass, pull, stop, help, status;
      rewrite ?Ha, ?He; cbn [bind]; discriminate.
  - destruct (turn_counter_bound games _ game Hr Hg (Hsize _ _ Hg))
      as (Hpos & Hmax & Hne & _).
    assert (Hturn : ∃ cur, playerOnTurn game = Done cur).
    { destruct (lookup_lt_is_Some_2 (Players game)
                  (Z.to_nat (CurrentPos game mod len (Players game)))) as [q Hq].
      - unfold len.
        assert (0 < length (Players game))%nat
          by (destruct (Players game); [done | cbn; lia]).
        pose proof (Z.mod_pos_bound (CurrentPos game)
                      (Z.of_nat (length (Players game)))). lia.
      - exists q. apply playerOnTurn_mod; [lia | done]. }
    destruct Hturn as [cur Hturn].
    assert (Hnext : ∀ game', Players game' = Players game →
                             CurrentPos game' = wrap (CurrentPos game + 1) →
                             ∃ q, playerOnTurn game' = Done q).
    { intros game'. apply (playerOnTurn_next game game' cur Hturn). lia. }
    destruct c; cbn [handle];
      unfold create, join, start, skip, pass, pull, stop, help, status;
      rewrite ?Ha, ?He; cbn [bind]; rewrite ?Hturn; cbn [bind];
      repeat first
        [ discriminate
        | match goal with
          | |- context [bind (playerOnTurn ?g') _] =>
              destruct (Hnext g' eq_refl eq_refl) as [q ->]; cbn [bind]
          | |- context [bind (index (?p :: _) 0) _] => cbn
          | |- context [if len ?l <? 2 then _ else _] =>
              destruct (Z.ltb_spec (len l) 2);
              [|destruct l; [done|]]
          | |- context [if ?b then _ else _] => destruct b
          end ].
Qed.

(** ** Joining *)

(** [/start] returns the registry it was given. *)
Lemma start_writes_nothing m (games games' : Registry) sent :
  start m games = Done (games', sent) → games' = games.
Proof.
  unfold start.
  destruct (activeGame games (ChatID m)) as [[game|]|]; cbn [bind];
    [|by intros [= <- _]|discriminate].
  destruct (_ <? 2); [by intros [= <- _]|].
  split_bind; [by intros [= <- _]|discriminate].
Qed.

(** C3, as the program has it.  [/join] is served whenever the chat has an
    active game, and a game is active from [/create] on ([/start] writes
    nothing): a join by a player not on the roster appends the player and
    sets their skips to 2, leaving every other field; a join by a player on
    the roster is refused with the already-in-the-game message and changes
    nothing; with no entry or an inactive one the join is refused with the
    no-active-game message and changes nothing. *)
Theorem join_effect m (games : Registry) :
  (games !! ChatID m = None ∨
   (∃ game, games !! ChatID m = Some (Some game) ∧ IsActive game = false) →
   join m games = Done (games, [NoActiveGame])) ∧
  (∀ game,
     games !! ChatID m = Some (Some game) →
     IsActive game = true →
     (getPlayerID (Sender m) ∈ Players game →
      join m games = Done (games, [AlreadyInGame])) ∧
     (getPlayerID (Sender m) ∉ Players game →
      join m games
      = Done (<[ChatID m :=
                  Some {| Players := Players game ++ [getPlayerID (Sender m)];
                          Bullet := Bullet game;
                          CurrentPos := CurrentPos game;
                          PullCount := PullCount game;
                          IsActive := IsActive game;
                          Skips := <[getPlayerID (Sender m) := 2]> (Skips game);
                          HasPulledOnTurn := HasPulledOnTurn game |}]> games,
              [Joined (Username (Sender m))
                      (Players game ++ [getPlayerID (Sender m)])]))) ∧
  (∀ (games' : Registry) sent,
     start m games = Done (games', sent) → games' = games).
Proof.
  split; [|split].
  - intros H. apply activeGame_none in H. unfold join. by rewrite H.
  - intros game Hentry Hactive. split; intros Hin; unfold join;
      past_guard Hentry Hactive.
    + apply inRoster_elem in Hin. by rewrite Hin.
    + destruct (inRoster _ _) eqn:E; [|done]. by apply inRoster_elem in E.
  - intros games' sent. apply start_writes_nothing.
Qed.

Lemma join_effect_witness :
  join (says carol) (Sample.room (Sample.duoPulled 3))
  = Done (Sample.room
            {| Players := ["alice"; "Bob"; "carol"]; Bullet := 3; CurrentPos := 0;
               PullCount := 1; IsActive := true;
               Skips := <["carol" := 2]> (<["Bob" := 2]> {[ "alice" := 2 ]});
               HasPulledOnTurn := true |},
          [Joined "carol" ["alice"; "Bob"; "carol"]]).
Proof.
  destruct (join_effect (says carol) (Sample.room (Sample.duoPulled 3)))
    as (_ & H & _).
  destruct (H (Sample.duoPulled 3) eq_refl eq_refl) as [_ Hnew].
  rewrite Hnew.
  - vm_compute. reflexivity.
  - vm_compute. intros Hin. apply list_elem_of_In in Hin. cbn in Hin.
    destruct Hin as [E | [E | []]]; discriminate E.
Defined.

(** C3 as stated fails: after [/start] has announced the game, and after a
    pull, Carol's [/join] is served and the roster grows. *)
Lemma join_after_start_is_served :
  run [(Create 3, says alice); (Join, says bob); (Start, says alice);
       (Pull, says alice)] ∅
  = Done (Sample.room (Sample.duoPulled 3),
          [Created "alice"; Joined "" ["alice"; "Bob"];
           GameStarting; FirstUp "alice";
           Survives "alice" 5 (oddsPercentage 5) 2]) ∧
  ∃ game',
    join (says carol) (Sample.room (Sample.duoPulled 3))
    = Done (Sample.room game', [Joined "carol" ["alice"; "Bob"; "carol"]]) ∧
    Players game' = ["alice"; "Bob"; "carol"] ∧
    Players game' ≠ Players (Sample.duoPulled 3).
Proof.
  split; [vm_compute; reflexivity|].
  eexists. split; [vm_compute; reflexivity|]. split; [reflexivity | discriminate].
Qed.

(** ** Acting before [/start] *)

(** C2, as the program has it.  A game is active from [/create] on and
    [/start] writes nothing, so there is no state in which a created game
    waits to be started: [/skip], [/pass] and [/pull] are refused with the
    no-active-game message exactly when the chat has no entry or an inactive
    one, and then the registry is returned as it was. *)
Theorem actions_need_no_start m (games : Registry) :
  (∀ draw (games' : Registry) username,
     create draw m games = Done (games', [Created username]) →
     ∃ game, games' !! ChatID m = Some (Some game) ∧ IsActive game = true) ∧
  (∀ (games' : Registry) sent,
     start m games = Done (games', sent) → games' = games) ∧
  (∀ action, action ∈ [skip; pass; pull] →
     ((∃ games', action m games = Done (games', [NoActiveGame])) ↔
      (games !! ChatID m = None ∨
       ∃ game, games !! ChatID m = Some (Some game) ∧ IsActive game = false)) ∧
     (∀ games', action m games = Done (games', [NoActiveGame]) → games' = games)).
Proof.
  split; [|split].
  - intros draw games' username. unfold create.
    destruct (existsAndActive games (ChatID m)) as [[]|]; cbn [bind];
      [discriminate| |discriminate].
    intros [= <- _]. eexists. split; [apply lookup_insert_eq | done].
  - intros games' sent. apply start_writes_nothing.
  - intros action Hin.
    assert (Hcases : action = skip ∨ action = pass ∨ action = pull).
    { apply list_elem_of_In in Hin. cbn in Hin.
      destruct Hin as [<- | [<- | [<- | []]]]; auto. }
    assert (Hno : activeGame games (ChatID m) = Done None →
                  action m games = Done (games, [NoActiveGame])).
    { intros H. destruct Hcases as [-> | [-> | ->]];
        unfold skip, pass, pull; by rewrite H. }
    assert (Hyes : ∀ games', action m games = Done (games', [NoActiveGame]) →
                             activeGame games (ChatID m) = Done None).
    { intros games'. destruct Hcases as [-> | [-> | ->]];
        unfold skip, pass, pull;
        (destruct (activeGame games (ChatID m)) as [[game|]|]; cbn [bind];
         [|done|discriminate]);
        repeat first
          [ discriminate
          | split_bind
          | match goal with
            | |- context [if ?b then _ else _] => destruct b
            end ]. }
    split.
    + rewrite <- activeGame_none. split.
      * intros [games' H]. by eapply Hyes.
      * intros H. eauto.
    + intros games' H. specialize (Hno (Hyes _ H)). congruence.
Qed.

Lemma actions_need_no_start_witness :
  ∃ game, <[7 := Some (Sample.solo 3)]> (∅ : Registry) !! 7 = Some (Some game)
          ∧ IsActive game = true.
Proof.
  destruct (actions_need_no_start (says alice) ∅) as (Hcreate & _ & _).
  apply (Hcreate 3 _ "alice"). vm_compute. reflexivity.
Defined.

(** C2 as stated fails: right after [/create], with no [/start] handled,
    Alice's [/skip] is served, and so are her [/pull] and the [/pass] after
    it; each changes the game. *)
Lemma actions_before_start_are_served :
  run [(Create 3, says alice)] ∅
  = Done (Sample.room (Sample.solo 3), [Created "alice"]) ∧
  skip (says alice) (Sample.room (Sample.solo 3))
  = Done (Sample.room
            {| Players := ["alice"]; Bullet := 3; CurrentPos := 1; PullCount := 0;
               IsActive := true; Skips := {[ "alice" := 1 ]};
               HasPulledOnTurn := false |},
          [Skipped "alice" 1 "alice"]) ∧
  run [(Pull, says alice); (Pass, says alice)] (Sample.room (Sample.solo 3))
  = Done (Sample.room
            {| Players := ["alice"]; Bullet := 3; CurrentPos := 1; PullCount := 1;
               IsActive := true; Skips := {[ "alice" := 2 ]};
               HasPulledOnTurn := false |},
          [Survives "alice" 5 (oddsPercentage 5) 2; Passed "alice" "alice"]).
Proof.
  split; [|split]; vm_compute; reflexivity.
Qed.

(** C7, at the input where the program departs from it.  The field
    [HasPulledOnTurn] is commented "Track if current player has pulled at
    least once on their turn", but the flag belongs to the turn counter,
    not to a player: the player on turn is
    [Players[CurrentPos % len(Players)]], so a [/join], served at any time,
    can change who that is while the flag stays.  In this run from the empty
    registry Alice and Bob skip once each, Alice pulls and survives on the
    third turn, and Carol joins: the counter is 2, the roster has three
    players, so Carol is on turn with the flag set and no pull of her own.
    Her [/skip] is refused as already pulled, and her [/pass] is served
    without a pull. *)
Example join_hands_the_turn_over :
  run [(Create 5, says alice); (Join, says bob); (Skip, says alice);
       (Skip, says bob); (Pull, says alice); (Join, says carol)] ∅
  = Done (Sample.room Sample.handedOver,
          [Created "alice"; Joined "" ["alice"; "Bob"];
           Skipped "alice" 1 "Bob"; Skipped "Bob" 1 "alice";
           Survives "alice" 5 (oddsPercentage 5) 1;
           Joined "carol" ["alice"; "Bob"; "carol"]]) ∧
  playerOnTurn Sample.handedOver = Done "carol" ∧
  HasPulledOnTurn Sample.handedOver = true ∧
  skip (says carol) (Sample.room Sample.handedOver)
  = Done (Sample.room Sample.handedOver, [AlreadyPulled]) ∧
  ∃ games', pass (says carol) (Sample.room Sample.handedOver)
            = Done (games', [Passed "carol" "alice"]).
Proof.
  split; [vm_compute; reflexivity|].
  split; [vm_compute; reflexivity|]. split; [reflexivity|].
  split; [vm_compute; reflexivity|]. eexists. vm_compute. reflexivity.
Qed.

(** ** The death notice *)

(** C1, at the input where the program departs from it.  Bob has no user
    name, so he plays as "Bob".  He creates a game whose bullet sits in the
    first chamber and pulls: the pull is his to make, [PullCount] equals
    [Bullet], the entry is deleted, and the death notice is formatted from
    his [Username] field, the empty string, not from the name he plays
    under.  With the bullet elsewhere the survival notice of the same
    handler does name "Bob". *)
Theorem death_notice_names_username :
  run [(Create 0, says bob)] ∅
  = Done (Sample.room (Sample.bobAlone 0), [Created ""]) ∧
  playerOnTurn (Sample.bobAlone 0) = Done "Bob" ∧
  getPlayerID (Sender (says bob)) = "Bob" ∧
  PullCount (Sample.bobAlone 0) = Bullet (Sample.bobAlone 0) ∧
  pull (says bob) (Sample.room (Sample.bobAlone 0)) = Done (∅, [Bang ""]) ∧
  (∃ games', pull (says bob) (Sample.room (Sample.bobAlone 3))
             = Done (games', [Survives "Bob" 5 (oddsPercentage 5) 2])).
Proof.
  split; [vm_compute; reflexivity|].
  split; [vm_compute; reflexivity|].
  split; [vm_compute; reflexivity|].
  split; [vm_compute; reflexivity|].
  split; [vm_compute; reflexivity|].
  eexists. vm_compute. reflexivity.
Qed.

(** ** A whole game *)

(** Two players, the bullet in the third chamber: pull, pass, pull, pass,
    and the third pull is fatal and frees the chat. *)
Example game_to_the_end :
  run [(Create 2, says alice); (Join, says carol); (Start, says carol);
       (Pull, says alice); (Pass, says alice);
       (Pull, says carol); (Pass, says carol);
       (Pull, says alice); (GetStatus, says carol)] ∅
  = Done (∅,
          [Created "alice"; Joined "carol" ["alice"; "carol"];
           GameStarting; FirstUp "alice";
           Survives "alice" 5 (oddsPercentage 5) 2; Passed "alice" "carol";
           Survives "carol" 4 (oddsPercentage 4) 2; Passed "carol" "alice";
           Bang "alice"; NoActiveGameStatus]).
Proof. vm_compute. reflexivity. Qed.

(** A lone player can skip twice; the third skip is refused and changes
    nothing. *)
Example third_skip_refused :
  ∃ games : Registry,
    run [(Create 4, says alice); (Skip, says alice); (Skip, says alice)] ∅
    = Done (games, [Created "alice"; Skipped "alice" 1 "alice";
                    Skipped "alice" 0 "alice"]) ∧
    skip (says alice) games = Done (games, [NoSkipsRemaining]).
Proof.
  eexists. split.
  - vm_compute. reflexivity.
  - vm_compute. reflexivity.
Qed.

(** * More of [src/unnamed/part_000]: every handler and its edges *)

(** ** [/create] and [/stop] *)

(** X1. [/create] never touches a running game: with an active game in the
    chat it answers that one is in progress and returns the registry as it
    was.  Otherwise (no entry, or an entry that is not active) it stores a
    game with the sender as only player and on turn, the drawn bullet, no
    pull fired, the flag clear and two skips for the sender. *)
Theorem create_effect draw m (games : Registry) :
  (∀ game, games !! ChatID m = Some (Some game) → IsActive game = true →
           create draw m games = Done (games, [AlreadyInProgress])) ∧
  (games !! ChatID m = None ∨
   (∃ game, games !! ChatID m = Some (Some game) ∧ IsActive game = false) →
   create draw m games
   = Done (<[ChatID m := Some (newGame draw (getPlayerID (Sender m)))]> games,
           [Created (Username (Sender m))]) ∧
   playerOnTurn (newGame draw (getPlayerID (Sender m)))
   = Done (getPlayerID (Sender m)) ∧
   skipsOf (newGame draw (getPlayerID (Sender m))) (getPlayerID (Sender m)) = 2).
Proof.
  split.
  - intros game Hg Ha. unfold create, existsAndActive. by rewrite Hg, Ha.
  - intros Hfree. split; [|split].
    + unfold create, existsAndActive.
      destruct Hfree as [-> | (game & -> & ->)]; done.
    + done.
    + unfold skipsOf, newGame. cbn. by rewrite lookup_singleton_eq.
Qed.

Lemma create_effect_witness :
  create 4 (says carol) (Sample.room (Sample.duo 3))
  = Done (Sample.room (Sample.duo 3), [AlreadyInProgress]).
Proof.
  destruct (create_effect 4 (says carol) (Sample.room (Sample.duo 3))) as [H _].
  exact (H (Sample.duo 3) eq_refl eq_refl).
Defined.

(** X2. [/stop] does not look at the sender: in a chat without an entry, a
    [/create] followed by a [/stop] from anyone in that chat gives back the
    registry the [/create] started from. *)
Theorem create_then_stop draw m m' (games : Registry) :
  games !! ChatID m = None →
  ChatID m' = ChatID m →
  run [(Create draw, m); (Stop, m')] games
  = Done (games, [Created (Username (Sender m)); GameStopped]).
Proof.
  intros Hnone Hchat. cbn [run handle].
  unfold create, existsAndActive. rewrite Hnone. cbn [bind fst snd].
  unfold stop, existsAndActive. rewrite Hchat, lookup_insert_eq. cbn.
  by rewrite delete_insert_id.
Qed.

Lemma create_then_stop_witness :
  run [(Create 2, says alice); (Stop, says bob)] ∅
  = Done (∅, [Created "alice"; GameStopped]).
Proof.
  exact (create_then_stop 2 (says alice) (says bob) ∅ eq_refl eq_refl).
Defined.

(** X3. A chat without an entry: every command but [/create] and [/help]
    is answered with its no-game message and returns the registry as it
    was; so is every one of them in a chat whose entry is not active.  In
    particular a second [/stop] finds nothing to stop. *)
Theorem without_a_game m (games : Registry) :
  games !! ChatID m = None ∨
  (∃ game, games !! ChatID m = Some (Some game) ∧ IsActive game = false) →
  join m games = Done (games, [NoActiveGame]) ∧
  start m games = Done (games, [NoActiveGame]) ∧
  skip m games = Done (games, [NoActiveGame]) ∧
  pass m games = Done (games, [NoActiveGame]) ∧
  pull m games = Done (games, [NoActiveGame]) ∧
  stop m games = Done (games, [NoGameToStop]) ∧
  status m games = Done (games, [NoActiveGameStatus]).
Proof.
  intros H.
  assert (Hst : existsAndActive games (ChatID m) = Done false).
  { unfold existsAndActive. by destruct H as [-> | (game & -> & ->)]. }
  apply activeGame_none in H.
  unfold join, start, skip, pass, pull, stop, status. by rewrite H, Hst.
Qed.

Lemma without_a_game_witness :
  stop (says alice) (delete 7 (Sample.room (Sample.duo 3)))
  = Done (delete 7 (Sample.room (Sample.duo 3)), [NoGameToStop]).
Proof.
  destruct (without_a_game (says alice) (delete 7 (Sample.room (Sample.duo 3))))
    as (_ & _ & _ & _ & _ & H & _).
  - left. reflexivity.
  - exact H.
Defined.

(** ** [/start] *)

(** X4. [/start] in a chat with an active game: with fewer than two
    players it asks for two; with two or more it announces the start and
    names the first player of the roster, whoever is on turn.  It never
    panics there and never writes. *)
Theorem start_effect m (games : Registry) game :
  games !! ChatID m = Some (Some game) →
  IsActive game = true →
  (len (Players game) < 2 → start m games = Done (games, [NeedTwoPlayers])) ∧
  (2 <= len (Players game) →
   ∃ first rest, Players game = first :: rest ∧
                 start m games = Done (games, [GameStarting; FirstUp first])).
Proof.
  intros Hentry Hactive. split; intros Hlen; unfold start;
    past_guard Hentry Hactive.
  - by destruct (Z.ltb_spec (len (Players game)) 2); [|lia].
  - destruct (Z.ltb_spec (len (Players game)) 2); [lia|].
    destruct (Players game) as [|first rest]; [unfold len in *; cbn in *; lia|].
    by exists first, rest.
Qed.

Lemma start_effect_witness :
  start (says bob) (Sample.room (Sample.duoPulled 3))
  = Done (Sample.room (Sample.duoPulled 3), [GameStarting; FirstUp "alice"]).
Proof.
  destruct (start_effect (says bob) (Sample.room (Sample.duoPulled 3))
              (Sample.duoPulled 3) eq_refl eq_refl) as [_ H].
  destruct H as (first & rest & Hp & Hs); [vm_compute; discriminate|].
  injection Hp as <- _. exact Hs.
Defined.

(** ** [/pass], and commands out of turn *)

Section OnTurnMore.

Variables (m : Message) (games : Registry) (game : Game).
Hypothesis Hentry : games !! ChatID m = Some (Some game).
Hypothesis Hactive : IsActive game = true.
Hypothesis Hturn : playerOnTurn game = Done (getPlayerID (Sender m)).

(** X5. In an active game, a [/pass] by the player on turn who has pulled
    this turn moves the turn counter on by exactly one, so that the next
    player of the roster (the first after the last) is on turn and is the
    one the message names; it clears [HasPulledOnTurn] and leaves the
    roster, [Bullet], [PullCount] and every skip count alone. *)
Theorem pass_effect :
  HasPulledOnTurn game = true →
  0 <= CurrentPos game < max_int →
  ∃ game' nextPlayer,
    pass m games
    = Done (<[ChatID m := Some game']> games,
            [Passed (getPlayerID (Sender m)) nextPlayer]) ∧
    CurrentPos game' = CurrentPos game + 1 ∧
    Players game
      !! Z.to_nat ((CurrentPos game + 1) mod len (Players game)) = Some nextPlayer ∧
    playerOnTurn game' = Done nextPlayer ∧
    HasPulledOnTurn game' = false ∧
    Players game' = Players game ∧
    Bullet game' = Bullet game ∧
    PullCount game' = PullCount game ∧
    Skips game' = Skips game ∧
    IsActive game' = true.
Proof.
  intros Hflag Hpos.
  assert (Hw : wrap (CurrentPos game + 1) = CurrentPos game + 1).
  { apply wrap_small. unfold min_int, max_int in *. lia. }
  pose proof (playerOnTurn_elem _ _ Hturn) as Hin.
  assert (Hlen : (0 < length (Players game))%nat).
  { destruct (Players game); [inversion Hin | cbn; lia]. }
  destruct (lookup_lt_is_Some_2 (Players game)
              (Z.to_nat ((CurrentPos game + 1) mod len (Players game)))) as [q Hq].
  { unfold len.
    pose proof (Z.mod_pos_bound (CurrentPos game + 1)
                  (Z.of_nat (length (Players game)))). lia. }
  unfold pass. past_guard Hentry Hactive. on_turn Hturn. rewrite Hflag. cbn [negb].
  rewrite Hw.
  set (game' := Build_Game _ _ _ _ _ _ _).
  assert (Hnext : playerOnTurn game' = Done q).
  { apply playerOnTurn_mod; subst game'; cbn; [lia | done]. }
  rewrite Hnext. cbn [bind]. exists game', q. subst game'. by cbn.
Qed.

End OnTurnMore.

Lemma pass_effect_witness :
  ∃ game',
    pass (says alice) (Sample.room (Sample.duoPulled 3))
    = Done (<[7 := Some game']> (Sample.room (Sample.duoPulled 3)),
            [Passed "alice" "Bob"]) ∧
    CurrentPos game' = 1 ∧ HasPulledOnTurn game' = false.
Proof.
  assert (Hpos : 0 <= CurrentPos (Sample.duoPulled 3) < max_int).
  { vm_compute. split; [discriminate | reflexivity]. }
  destruct (pass_effect (says alice) (Sample.room (Sample.duoPulled 3))
              (Sample.duoPulled 3) eq_refl eq_refl eq_refl eq_refl Hpos)
    as (game' & q & Hp & Hc & Hq & _ & Hf & _).
  injection Hq as <-.
  exists game'. split; [exact Hp | split; [exact Hc | exact Hf]].
Defined.

(** X6. In an active game with a turn counter that is not negative, a
    [/skip] or a [/pass] by anyone but [players[turnIndex mod len(players)]]
    is answered with the not-your-turn message naming that player, before
    the flag or the skip count is looked at, and the registry is returned as
    it was. *)
Theorem out_of_turn_refused m (games : Registry) game expected :
  games !! ChatID m = Some (Some game) →
  IsActive game = true →
  0 <= CurrentPos game →
  Players game !! Z.to_nat (CurrentPos game mod len (Players game)) = Some expected →
  getPlayerID (Sender m) ≠ expected →
  skip m games = Done (games, [NotYourTurnToPlay expected]) ∧
  pass m games = Done (games, [NotYourTurnToPlay expected]).
Proof.
  intros Hentry Hactive Hpos Hexp Hne.
  apply String.eqb_neq in Hne.
  split; [unfold skip | unfold pass]; past_guard Hentry Hactive;
    rewrite (playerOnTurn_mod _ _ Hpos Hexp); cbn [bind]; by rewrite Hne.
Qed.

Lemma out_of_turn_refused_witness :
  skip (says bob) (Sample.room (Sample.duoPulled 3))
  = Done (Sample.room (Sample.duoPulled 3), [NotYourTurnToPlay "alice"]) ∧
  pass (says bob) (Sample.room (Sample.duoPulled 3))
  = Done (Sample.room (Sample.duoPulled 3), [NotYourTurnToPlay "alice"]).
Proof.
  apply (out_of_turn_refused (says bob) (Sample.room (Sample.duoPulled 3))
           (Sample.duoPulled 3) "alice").
  - reflexivity.
  - reflexivity.
  - vm_compute. discriminate.
  - reflexivity.
  - vm_compute. discriminate.
Defined.

(** ** The roster *)

Lemma skipsMatchRoster_new draw playerID :
  skipsMatchRoster (newGame draw playerID).
Proof.
  intros p. cbn. rewrite list_elem_of_singleton. split.
  - intros ->. rewrite lookup_singleton_eq. eauto.
  - intros [k Hk]. destruct (decide (playerID = p)) as [->|Hne]; [done|].
    by rewrite lookup_singleton_ne in Hk.
Qed.

Lemma skipsMatchRoster_step sender game game' :
  skipsMatchRoster game → gameStep sender game game' → skipsMatchRoster game'.
Proof.
  intros Hm Hstep.
  destruct Hstep as [game Hnew | game Hturn Hflag Hleft | game Hturn Hflag
                    | game Hturn Hdiff Hrem]; intros p; cbn; [| |apply Hm..].
  - rewrite elem_of_app, list_elem_of_singleton, (Hm p).
    destruct (decide (sender = p)) as [->|Hne].
    + rewrite lookup_insert_eq. split; eauto.
    + rewrite lookup_insert_ne by done. split; [intros [?|?]; [done|congruence] | eauto].
  - apply playerOnTurn_elem in Hturn.
    destruct (decide (sender = p)) as [->|Hne].
    + rewrite lookup_insert_eq. split; eauto.
    + rewrite lookup_insert_ne by done. apply Hm.
Qed.

Lemma reachable_skipsMatchRoster (games : Registry) id game :
  reachable games → games !! id = Some (Some game) → skipsMatchRoster game.
Proof.
  intros Hr. revert id game.
  induction Hr as [|games c m games' sent Hr IH Hdraw Hrun]; intros id game Hg.
  - by rewrite lookup_empty in Hg.
  - pose proof (handle_shape c m games games' sent (reachable_ok _ Hr) Hdraw Hrun)
      as [-> | [-> | [(_ & draw & _ & ->) | (old & new & Hold & Hstep & ->)]]].
    + eauto.
    + destruct (decide (ChatID m = id)) as [<-|Hne].
      * by rewrite lookup_delete_eq in Hg.
      * rewrite lookup_delete_ne in Hg by done. eauto.
    + destruct (decide (ChatID m = id)) as [<-|Hne].
      * rewrite lookup_insert_eq in Hg. injection Hg as <-.
        apply skipsMatchRoster_new.
      * rewrite lookup_insert_ne in Hg by done. eauto.
    + destruct (decide (ChatID m = id)) as [<-|Hne].
      * rewrite lookup_insert_eq in Hg. injection Hg as <-.
        eapply skipsMatchRoster_step; [|exact Hstep]. eauto.
      * rewrite lookup_insert_ne in Hg by done. eauto.
Qed.

(** X7. In every registry the program can reach, the roster of a game is
    not empty and names nobody twice, and the skip table has an entry for
    exactly the players of the roster, each 0, 1 or 2. *)
Theorem roster_invariant (games : Registry) id game :
  reachable games →
  games !! id = Some (Some game) →
  Players game ≠ [] ∧
  NoDup (Players game) ∧
  (∀ player, player ∈ Players game ↔ is_Some (Skips game !! player)) ∧
  (∀ player skips, Skips game !! player = Some skips → 0 <= skips <= 2).
Proof.
  intros Hr Hg.
  destruct (reachable_turnOk _ Hr _ _ Hg) as (Hne & Hnd & _).
  destruct (reachable_ok _ Hr _ _ Hg) as (g & [= <-] & _ & _ & _ & Hskips).
  split; [done|]. split; [done|]. split.
  - by eapply reachable_skipsMatchRoster.
  - intros player k Hk. exact (Hskips _ _ Hk).
Qed.

Lemma roster_invariant_witness :
  NoDup (Players (Sample.duo 3)) ∧ Players (Sample.duo 3) ≠ [].
Proof.
  destruct (roster_invariant (Sample.room (Sample.duo 3)) 7 (Sample.duo 3)
              duo_reachable eq_refl) as (Hne & Hnd & _).
  split; [exact Hnd | exact Hne].
Defined.

Lemma gameStep_prefix sender game game' :
  gameStep sender game game' → Players game `prefix_of` Players game'.
Proof.
  intros [g Hnew | g Hturn Hflag Hleft | g Hturn Hflag | g Hturn Hdiff Hrem]; cbn;
    [by apply prefix_app_r | done..].
Qed.

(** X8. Nobody leaves a game and the order of joining is kept: as long as
    a game lives on, whatever commands are handled, the roster it had is a
    prefix of the roster it has. *)
Theorem roster_only_grows (games : Registry) id game :
  reachable games →
  games !! id = Some (Some game) →
  ∀ (games' : Registry) game',
    gameContinues id games games' →
    games' !! id = Some (Some game') →
    Players game `prefix_of` Players game'.
Proof.
  intros Hr Hg games' game' Hc. revert game'.
  assert (Hall : reachable games' ∧
                 ∀ game', games' !! id = Some (Some game') →
                          Players game `prefix_of` Players game').
  { induction Hc as [games | games mid games'' c m sent last Hc IH Hdraw Hrun Hlast].
    - split; [done|]. intros game' Hg'. rewrite Hg in Hg'. by injection Hg' as <-.
    - destruct (IH Hr Hg) as [Hrmid Hmid].
      split; [by eapply reachable_step|].
      intros game' Hg'.
      pose proof (handle_shape c m mid games'' sent (reachable_ok _ Hrmid) Hdraw Hrun)
        as [-> | [-> | [(Hnone & draw & _ & ->) | (old & new & Hold & Hstep & ->)]]].
      + eauto.
      + destruct (decide (ChatID m = id)) as [<-|Hne].
        * by rewrite lookup_delete_eq in Hg'.
        * rewrite lookup_delete_ne in Hg' by done. eauto.
      + destruct (decide (ChatID m = id)) as [<-|Hne].
        * destruct (gameContinues_inv _ _ _ _ Hr Hc Hg) as (_ & g0 & Hg0 & _).
          congruence.
        * rewrite lookup_insert_ne in Hg' by done. eauto.
      + destruct (decide (ChatID m = id)) as [<-|Hne].
        * rewrite lookup_insert_eq in Hg'. injection Hg' as <-.
          etrans; [by apply Hmid | by eapply gameStep_prefix].
        * rewrite lookup_insert_ne in Hg' by done. eauto. }
  apply Hall.
Qed.

Lemma roster_only_grows_witness :
  Players (Sample.duo 3) `prefix_of` Players Sample.withCarol.
Proof.
  apply (roster_only_grows (Sample.room (Sample.duo 3)) 7 (Sample.duo 3)
           duo_reachable eq_refl (Sample.room Sample.withCarol) Sample.withCarol);
    [|reflexivity].
  apply (gameContinues_step 7 _ (Sample.room (Sample.duo 3)) _ Join (says carol)
           [Joined "carol" ["alice"; "Bob"; "carol"]] Sample.withCarol).
  - apply gameContinues_here.
  - exact I.
  - vm_compute. reflexivity.
  - reflexivity.
Defined.

(** ** [/status] *)

(** X9. In a registry the program can reach, [/status] for a chat with a
    game (of a roster size a slice can have) never panics and never
    writes: it reports the roster in joining order, names
    [players[turnIndex mod len(players)]] as the player waited for, and
    lists one skip count per player, in roster order, each the player's
    own entry. *)
Theorem status_report m (games : Registry) game :
  reachable games →
  games !! ChatID m = Some (Some game) →
  len (Players game) < 2 ^ 61 →
  ∃ currentPlayer skips,
    status m games = Done (games, [Status (Players game) currentPlayer skips]) ∧
    Players game !! Z.to_nat (CurrentPos game mod len (Players game))
    = Some currentPlayer ∧
    skips.*1 = Players game ∧
    Forall (fun line => Skips game !! line.1 = Some line.2 ∧ 0 <= line.2 <= 2) skips.
Proof.
  intros Hr Hg Hlen.
  destruct (turn_counter_bound games _ game Hr Hg Hlen) as (Hpos & _ & Hne & _).
  destruct (reachable_ok _ Hr _ _ Hg) as (g & [= <-] & Hact & _ & _ & Hskips).
  pose proof (reachable_skipsMatchRoster _ _ _ Hr Hg) as Hmatch.
  destruct (lookup_lt_is_Some_2 (Players game)
              (Z.to_nat (CurrentPos game mod len (Players game)))) as [cur Hcur].
  { unfold len.
    assert (0 < length (Players game))%nat
      by (destruct (Players game); [done | cbn; lia]).
    pose proof (Z.mod_pos_bound (CurrentPos game)
                  (Z.of_nat (length (Players game)))). lia. }
  exists cur, (map (fun player => (player, skipsOf game player)) (Players game)).
  split; [|split; [done|split]].
  - unfold status. past_guard Hg Hact.
    by rewrite (playerOnTurn_mod game cur (proj1 Hpos) Hcur).
  - rewrite <- list_fmap_compose. apply list_fmap_id.
  - apply Forall_forall. intros [p k] Hin.
    apply list_elem_of_fmap in Hin as (q & [= -> ->] & Hq).
    apply Hmatch in Hq as [k Hk]. cbn. unfold skipsOf. rewrite Hk. cbn.
    split; [done | exact (Hskips _ _ Hk)].
Qed.

Lemma status_report_witness :
  ∃ currentPlayer skips,
    status (says carol) (Sample.room (Sample.duo 3))
    = Done (Sample.room (Sample.duo 3),
            [Status ["alice"; "Bob"] currentPlayer skips]) ∧
    currentPlayer = "alice" ∧ skips.*1 = ["alice"; "Bob"].
Proof.
  destruct (status_report (says carol) (Sample.room (Sample.duo 3)) (Sample.duo 3)
              duo_reachable eq_refl) as (cur & skips & Hs & Hc & Hn & _).
  { vm_compute. reflexivity. }
  exists cur, skips. split; [exact Hs|]. split; [|exact Hn].
  injection Hc as <-. reflexivity.
Defined.

(** ** One chat at a time *)

(** Every way through a handler: the computations its [let*]s wait for and
    the tests of its branches, case by case. *)
Ltac every_path :=
  repeat first
    [ progress cbn [bind]
    | match goal with
      | |- context [bind ?x _] => destruct x
      | |- context [match ?x with _ => _ end] => destruct x
      end ].

(** X10. A command of one chat never reads or writes the game of another:
    whatever the registry holds, a handler that returns leaves the entry of
    every other chat as it was. *)
Theorem other_chats_untouched c m (games games' : Registry) sent id :
  handle c m games = Done (games', sent) →
  id ≠ ChatID m →
  games' !! id = games !! id.
Proof.
  intros Hrun Hne. revert Hrun.
  destruct c; cbn [handle];
    unfold create, join, start, skip, pass, pull, stop, help, status;
    every_path; intros [= <- _];
    by rewrite ?lookup_insert_ne, ?lookup_delete_ne by done.
Qed.

Lemma other_chats_untouched_witness :
  <[7 := Some (Sample.duoPulled 3)]>
    (<[8 := Some (Sample.solo 1)]> (Sample.room (Sample.duo 3))) !! 8
  = <[8 := Some (Sample.solo 1)]> (Sample.room (Sample.duo 3)) !! 8.
Proof.
  apply (other_chats_untouched Pull (says alice)
           (<[8 := Some (Sample.solo 1)]> (Sample.room (Sample.duo 3))) _
           [Survives "alice" 5 (oddsPercentage 5) 2]).
  - vm_compute. reflexivity.
  - discriminate.
Defined.

Lemma part000_no_panic_witness :
  handle Skip (says alice) (Sample.room (Sample.duo 3)) ≠ Panic IndexOutOfRange.
Proof.
  apply (part000_no_panic (Sample.room (Sample.duo 3)) duo_reachable).
  intros id game Hg.
  destruct (decide (id = 7)) as [->|Hne].
  - injection Hg as <-. vm_compute. reflexivity.
  - unfold Sample.room in Hg. by rewrite lookup_singleton_ne in Hg.
Defined.

Lemma pull_fatal_witness :
  pull (says bob) (Sample.room (Sample.bobAlone 0)) = Done (∅, [Bang ""]).
Proof.
  destruct (pull_fatal (says bob) (Sample.room (Sample.bobAlone 0))
              (Sample.bobAlone 0) eq_refl eq_refl eq_refl eq_refl) as (_ & H & _).
  rewrite H. vm_compute. reflexivity.
Defined.

(** ** The last chamber *)

(** X24. In a registry the program can reach, once five pulls have been
    survived the bullet is in the last chamber: the next pull of the
    player on turn is fatal, whoever it is. *)
Theorem sixth_pull_is_fatal m (games : Registry) game :
  reachable games →
  games !! ChatID m = Some (Some game) →
  playerOnTurn game = Done (getPlayerID (Sender m)) →
  PullCount game = 5 →
  Bullet game = 5 ∧
  pull m games = Done (delete (ChatID m) games, [Bang (Username (Sender m))]).
Proof.
  intros Hr Hg Hturn Hfive.
  destruct (reachable_ok _ Hr _ _ Hg) as (g & [= <-] & Hact & Hp & Hb & _).
  assert (Hbul : Bullet game = 5) by lia.
  split; [done|].
  unfold pull. past_guard Hg Hact. on_turn Hturn.
  destruct (Z.eqb_spec (PullCount game) (Bullet game)); [done | lia].
Qed.

Lemma fiveSurvived_reachable : reachable (Sample.room Sample.fiveSurvived).
Proof.
  apply (run_reachable
           [(Create 5, says alice); (Pull, says alice); (Pull, says alice);
            (Pull, says alice); (Pull, says alice); (Pull, says alice)] ∅ _
           [Created "alice";
            Survives "alice" 5 (oddsPercentage 5) 2;
            Survives "alice" 4 (oddsPercentage 4) 2;
            Survives "alice" 3 (oddsPercentage 3) 2;
            Survives "alice" 2 (oddsPercentage 2) 2;
            Survives "alice" 1 (oddsPercentage 1) 2]).
  - apply reachable_start.
  - repeat constructor; cbn; lia.
  - vm_compute. reflexivity.
Qed.

Lemma sixth_pull_is_fatal_witness :
  pull (says alice) (Sample.room Sample.fiveSurvived) = Done (∅, [Bang "alice"]).
Proof.
  destruct (sixth_pull_is_fatal (says alice) (Sample.room Sample.fiveSurvived)
              Sample.fiveSurvived fiveSurvived_reachable eq_refl eq_refl eq_refl)
    as [_ H].
  rewrite H. vm_compute. reflexivity.
Defined.

End Part000Facts.

(** * Facts about [src/main.go] and [src/unnamed/part_001] *)

Section NilEntries.

(** C10, at the input where [src/main.go] departs from it.  [/stopgame]
    and the fatal branch of [/pull] store [nil] under the chat id instead of
    deleting the entry; the entry then exists, and the guard of every later
    command in that chat (all but [/help], which has none) reads [IsActive]
    through the nil pointer. *)
Theorem main_nil_entry_panics :
  Main.run [(Main.StartRoulette 3, says alice); (Main.StopGame, says alice)] ∅
  = Done ({[ 7 := None ]}, [Main.Created "alice"; Main.GameStopped]) ∧
  Main.run [(Main.StartRoulette 0, says alice); (Main.Pull, says alice)] ∅
  = Done ({[ 7 := None ]}, [Main.Created "alice"; Main.Bang "alice"]) ∧
  Forall (fun c => Main.handle c (says alice) {[ 7 := None ]} = Panic NilDereference)
         [Main.StartRoulette 3; Main.Join; Main.StartGame; Main.Pull;
          Main.StopGame; Main.GetStatus].
Proof.
  split; [|split]; [vm_compute; reflexivity ..|].
  repeat constructor.
Qed.

(** The same in [src/unnamed/part_001]: [/stop] and both fatal branches of
    [/pull] store [nil]. *)
Lemma part001_nil_entry_panics :
  Part001.run [(Part001.Create 3, says alice); (Part001.Stop, says alice)] ∅
  = Done ({[ 7 := None ]}, [Part001.Created "alice"; Part001.GameStopped]) ∧
  Part001.run [(Part001.Create 0, says alice); (Part001.Pull, says alice)] ∅
  = Done ({[ 7 := None ]}, [Part001.Created "alice"; Part001.Bang "alice"]) ∧
  Forall (fun c => Part001.handle c (says alice) {[ 7 := None ]}
                   = Panic NilDereference)
         [Part001.Create 3; Part001.Join; Part001.Start; Part001.Skip;
          Part001.Pull; Part001.Stop; Part001.GetStatus].
Proof.
  split; [|split]; [vm_compute; reflexivity ..|].
  repeat constructor.
Qed.

(** In any registry, of either revision, a command to a chat whose entry
    is [nil] panics at the guard. *)
Lemma main_nil_guard m (games : Main.Registry) c :
  games !! ChatID m = Some None → c ≠ Main.Help →
  Main.handle c m games = Panic NilDereference.
Proof.
  intros H Hc. destruct c; cbn [Main.handle]; try done;
    unfold Main.startroulette, Main.join, Main.startgame, Main.pull,
      Main.stopgame, Main.status, Main.activeGame, Main.existsAndActive;
    by rewrite H.
Qed.

Lemma part001_nil_guard m (games : Part001.Registry) c :
  games !! ChatID m = Some None → c ≠ Part001.Help →
  Part001.handle c m games = Panic NilDereference.
Proof.
  intros H Hc. destruct c; cbn [Part001.handle]; try done;
    unfold Part001.create, Part001.join, Part001.start, Part001.skip,
      Part001.pull, Part001.stop, Part001.status, Part001.activeGame,
      Part001.existsAndActive;
    by rewrite H.
Qed.

End NilEntries.

(** * Facts about [getPlayerID], which all three revisions share *)

Section PlayerIDs.

(** X13. [getPlayerID] never returns the empty string: it is the user
    name when there is one, else the first name when there is one, else
    "player" followed by the decimal ID. *)
Theorem getPlayerID_never_empty sender :
  getPlayerID sender ≠ "" ∧
  (Username sender ≠ "" → getPlayerID sender = Username sender) ∧
  (Username sender = "" → FirstName sender ≠ "" →
   getPlayerID sender = FirstName sender) ∧
  (Username sender = "" → FirstName sender = "" →
   getPlayerID sender = "player" +:+ pretty (ID sender)).
Proof.
  unfold getPlayerID.
  destruct (String.eqb_spec (Username sender) "") as [Hu|Hu];
    destruct (String.eqb_spec (FirstName sender) "") as [Hf|Hf]; cbn [negb];
    repeat split; try done; try (intros; congruence).
Qed.

Lemma getPlayerID_never_empty_witness : getPlayerID bob = "Bob".
Proof.
  destruct (getPlayerID_never_empty bob) as (_ & _ & H & _).
  apply H; [reflexivity | discriminate].
Defined.

(** X14. Users without a user name and a first name are told apart by
    their numeric ID: two of them get the same identifier only when their
    IDs are equal. *)
Theorem getPlayerID_fallback_injective a b :
  Username a = "" → FirstName a = "" →
  Username b = "" → FirstName b = "" →
  getPlayerID a = getPlayerID b →
  ID a = ID b.
Proof.
  intros Hua Hfa Hub Hfb. unfold getPlayerID.
  rewrite Hua, Hfa, Hub, Hfb. cbn. intros [= H].
  change (pretty (ID a) = pretty (ID b)) in H. by apply (inj pretty) in H.
Qed.

Lemma getPlayerID_fallback_injective_witness : ID (nameless 12) = 12.
Proof.
  apply (getPlayerID_fallback_injective (nameless 12) (nameless 12));
    reflexivity.
Defined.

End PlayerIDs.

(** * More of [src/main.go] *)

Section MainFacts.
Import Main MainRuns.

(** Case analysis on the computation a [let*] in the goal waits for; a
    panic there ends the handler. *)
Ltac split_outcome :=
  match goal with
  | |- context [bind ?x _] => destruct x; cbn [bind]; [|discriminate]
  end.

Ltac main_paths :=
  repeat first
    [ progress cbn [bind]
    | match goal with
      | |- context [bind ?x _] => destruct x
      | |- context [match ?x with _ => _ end] => destruct x
      end ].

(** X15. A command of one chat never reads or writes the entry of
    another, whatever the registry holds. *)
Theorem main_other_chats_untouched c m (games games' : Registry) sent id :
  handle c m games = Done (games', sent) →
  id ≠ ChatID m →
  games' !! id = games !! id.
Proof.
  intros Hrun Hne. revert Hrun.
  destruct c; cbn [handle];
    unfold startroulette, join, startgame, pull, stopgame, help, status;
    main_paths; intros [= <- _];
    by rewrite ?lookup_insert_ne by done.
Qed.

Lemma main_other_chats_untouched_witness :
  <[7 := None]> (<[8 := Some (MainSample.pair 2 0)]> (MainSample.room (MainSample.pair 3 1)))
    !! 8
  = <[8 := Some (MainSample.pair 2 0)]> (MainSample.room (MainSample.pair 3 1)) !! 8.
Proof.
  apply (main_other_chats_untouched StopGame (says bob)
           (<[8 := Some (MainSample.pair 2 0)]> (MainSample.room (MainSample.pair 3 1)))
           _ [GameStopped]).
  - vm_compute. reflexivity.
  - discriminate.
Defined.

(** X16. A [nil] entry is final.  While a chat's entry is [nil], every
    command of that chat but [/help] panics at its guard, and no handler
    that returns, of any chat, changes the entry: a chat whose game was
    stopped or lost can never start another. *)
Theorem main_nil_entry_is_final (games : Registry) id :
  games !! id = Some None →
  (∀ c m, ChatID m = id → c ≠ Help → handle c m games = Panic NilDereference) ∧
  (∀ c m games' sent, handle c m games = Done (games', sent) →
                      games' !! id = Some None).
Proof.
  intros Hnil. split.
  - intros c m <- Hc. destruct c; cbn [handle]; try done;
      unfold startroulette, join, startgame, pull, stopgame, status,
        activeGame, existsAndActive;
      by rewrite Hnil.
  - intros c m games' sent.
    destruct (decide (ChatID m = id)) as [<-|Hne].
    + destruct c; cbn [handle];
        unfold startroulette, join, startgame, pull, stopgame, help, status,
          activeGame, existsAndActive;
        rewrite ?Hnil; cbn [bind]; try discriminate.
      by intros [= <- _].
    + rewrite <- Hnil. revert Hne.
      destruct c; cbn [handle];
        unfold startroulette, join, startgame, pull, stopgame, help, status;
        main_paths; intros Hne [= <- _];
        by rewrite ?lookup_insert_ne by done.
Qed.

Lemma main_nil_entry_is_final_witness :
  handle Join (says carol) ({[ 7 := None ]} : Registry) = Panic NilDereference.
Proof.
  assert (Hnil : ({[ 7 := None ]} : Registry) !! 7 = Some None) by reflexivity.
  destruct (main_nil_entry_is_final _ 7 Hnil) as [H _].
  apply H; [reflexivity | discriminate].
Defined.

Section MainOnTurn.

Variables (m : Message) (games : Registry) (game : Game).
Hypothesis Hentry : games !! ChatID m = Some (Some game).
Hypothesis Hactive : IsActive game = true.

(** X17. This revision checks the turn against [m.Sender.Username] while
    the roster holds [getPlayerID] results: a player on turn who has no
    user name, and so plays under the first name or the fallback, is told
    that it is not their turn, that the game waits for them, and nothing
    changes. *)
Theorem main_pull_needs_username :
  playerOnTurn game = Done (getPlayerID (Sender m)) →
  Username (Sender m) = "" →
  pull m games = Done (games, [NotYourTurnToPull (getPlayerID (Sender m))]).
Proof.
  intros Hturn Hempty. unfold pull, activeGame. rewrite Hentry, Hactive. cbn [bind].
  rewrite Hturn. cbn [bind]. rewrite Hempty.
  assert (Hne : getPlayerID (Sender m) ≠ "").
  { unfold getPlayerID. rewrite Hempty. cbn.
    destruct (String.eqb_spec (FirstName (Sender m)) ""); cbn; [discriminate | done]. }
  destruct (String.eqb_spec "" (getPlayerID (Sender m))); [congruence | done].
Qed.

(** X18. A [/pull] by the player on turn, named by user name.  With the
    turn counter at the bullet the shot is fatal: the death notice is sent
    and the entry is overwritten with [nil].  Otherwise the player
    survives: the turn counter goes up by one, the first message reports
    6 minus the new counter as the chambers left, the second names the
    next player of the roster, and the roster and bullet stay. *)
Theorem main_pull_effect :
  playerOnTurn game = Done (Username (Sender m)) →
  0 <= CurrentPos game < max_int →
  (CurrentPos game = Bullet game →
   pull m games = Done (<[ChatID m := None]> games, [Bang (Username (Sender m))])) ∧
  (CurrentPos game ≠ Bullet game →
   ∃ game' nextPlayer,
     pull m games
     = Done (<[ChatID m := Some game']> games,
             [Survives (getPlayerID (Sender m)) (6 - CurrentPos game')
                       (oddsPercentage (6 - CurrentPos game'));
              NextUp nextPlayer]) ∧
     CurrentPos game' = CurrentPos game + 1 ∧
     Players game
       !! Z.to_nat ((CurrentPos game + 1) mod len (Players game)) = Some nextPlayer ∧
     Players game' = Players game ∧
     Bullet game' = Bullet game ∧
     IsActive game' = true).
Proof.
  intros Hturn Hpos.
  assert (Hw : wrap (CurrentPos game + 1) = CurrentPos game + 1).
  { unfold wrap, min_int, max_int in *. rewrite Z.mod_small by lia. lia. }
  split; intros Hb; unfold pull, activeGame; rewrite Hentry, Hactive; cbn [bind];
    rewrite Hturn; cbn [bind]; rewrite String.eqb_refl; cbn [negb].
  - by destruct (Z.eqb_spec (CurrentPos game) (Bullet game)).
  - destruct (Z.eqb_spec (CurrentPos game) (Bullet game)); [done|].
    rewrite Hw.
    rewrite (wrap_small (6 - (CurrentPos game + 1)))
      by (unfold min_int, max_int in *; lia).
    assert (Hlen : (0 < length (Players game))%nat).
    { unfold playerOnTurn, modulo, len in Hturn.
      destruct (Players game); [discriminate | cbn; lia]. }
    destruct (lookup_lt_is_Some_2 (Players game)
                (Z.to_nat ((CurrentPos game + 1) mod len (Players game)))) as [q Hq].
    { unfold len.
      pose proof (Z.mod_pos_bound (CurrentPos game + 1)
                    (Z.of_nat (length (Players game)))). lia. }
    set (game' := Build_Game _ _ _ _).
    assert (Hnext : playerOnTurn game' = Done q).
    { unfold playerOnTurn, modulo, index, len in *. subst game'. cbn.
      destruct (Z.eqb_spec (Z.of_nat (length (Players game))) 0); [lia|]. cbn.
      rewrite Z.rem_mod_nonneg by lia.
      destruct (Z.ltb_spec ((CurrentPos game + 1) mod Z.of_nat (length (Players game))) 0).
      - pose proof (Z.mod_pos_bound (CurrentPos game + 1)
                      (Z.of_nat (length (Players game)))). lia.
      - by rewrite Hq. }
    rewrite Hnext. cbn [bind]. exists game', q. subst game'. by cbn.
Qed.

End MainOnTurn.

Lemma main_pull_needs_username_witness :
  pull (says bob) (MainSample.room (MainSample.bobAlone 3))
  = Done (MainSample.room (MainSample.bobAlone 3), [NotYourTurnToPull "Bob"]).
Proof.
  exact (main_pull_needs_username (says bob) (MainSample.room (MainSample.bobAlone 3))
           (MainSample.bobAlone 3) eq_refl eq_refl eq_refl eq_refl).
Defined.

Lemma main_pull_effect_witness :
  pull (says carol) (MainSample.room (MainSample.pair 1 1))
  = Done (<[7 := None]> (MainSample.room (MainSample.pair 1 1)), [Bang "carol"]).
Proof.
  assert (Hpos : 0 <= CurrentPos (MainSample.pair 1 1) < max_int).
  { vm_compute. split; [discriminate | reflexivity]. }
  destruct (main_pull_effect (says carol) (MainSample.room (MainSample.pair 1 1))
              (MainSample.pair 1 1) eq_refl eq_refl eq_refl Hpos) as [H _].
  apply H. reflexivity.
Defined.

(** ** The invariant of [src/main.go] *)

Lemma main_guard (games : Registry) id :
  registryOk games →
  (games !! id = None ∧ activeGame games id = Done None
   ∧ existsAndActive games id = Done false) ∨
  (games !! id = Some None ∧ activeGame games id = Panic NilDereference
   ∧ existsAndActive games id = Panic NilDereference) ∨
  (∃ game, games !! id = Some (Some game) ∧ gameOk game
           ∧ activeGame games id = Done (Some game)
           ∧ existsAndActive games id = Done true).
Proof.
  intros Hok. unfold activeGame, existsAndActive.
  destruct (games !! id) as [[game|]|] eqn:E; [|by right; left|by left].
  right. right. exists game. pose proof (Hok _ _ E) as Hg.
  rewrite (proj1 Hg). by split; [|split; [|split]].
Qed.

Lemma main_registryOk_nil (games : Registry) id :
  registryOk games → registryOk (<[id := None]> games).
Proof.
  intros Hok k g Hk. destruct (decide (id = k)) as [<-|Hne].
  - by rewrite lookup_insert_eq in Hk.
  - rewrite lookup_insert_ne in Hk by done. eauto.
Qed.

Lemma main_registryOk_game (games : Registry) id game :
  registryOk games → gameOk game → registryOk (<[id := Some game]> games).
Proof.
  intros Hok Hg k g Hk. destruct (decide (id = k)) as [<-|Hne].
  - rewrite lookup_insert_eq in Hk. by injection Hk as <-.
  - rewrite lookup_insert_ne in Hk by done. eauto.
Qed.

Lemma main_handle_ok c m (games games' : Registry) sent :
  registryOk games →
  drawInRange c →
  handle c m games = Done (games', sent) →
  registryOk games'.
Proof.
  intros Hok Hdraw.
  destruct (main_guard games (ChatID m) Hok)
    as [(_ & Ha & He) | [(_ & Ha & He) | (game & Hg & (Hact & Hpos & Hbul) & Ha & He)]];
    destruct c; cbn [handle];
    unfold startroulette, join, startgame, pull, stopgame, help, status;
    rewrite ?Ha, ?He; cbn [bind]; try discriminate;
    try (by intros [= <- _]).
  - intros [= <- _]. apply main_registryOk_game; [done|].
    repeat split; cbn in *; lia.
  - destruct (inRoster _ _); intros [= <- _]; [done|].
    by apply main_registryOk_game.
  - destruct (_ <? 2); [by intros [= <- _]|].
    split_outcome. by intros [= <- _].
  - split_outcome.
    destruct (negb _); [by intros [= <- _]|].
    destruct (Z.eqb_spec (CurrentPos game) (Bullet game)).
    + intros [= <- _]. by apply main_registryOk_nil.
    + split_outcome. intros [= <- _].
      apply main_registryOk_game; [done|].
      assert (Hw : wrap (CurrentPos game + 1) = CurrentPos game + 1).
      { apply wrap_small. unfold min_int, max_int. lia. }
      repeat split; cbn; rewrite ?Hw; first [done | lia].
  - intros [= <- _]. by apply main_registryOk_nil.
  - split_outcome. by intros [= <- _].
Qed.

Lemma main_reachable_ok (games : Registry) : reachable games → registryOk games.
Proof.
  induction 1 as [|games c m games' sent _ IH Hdraw Hrun].
  - intros id game H. by rewrite lookup_empty in H.
  - by eapply main_handle_ok.
Qed.

(** X19. In every registry [src/main.go] can reach, a game that is there
    is active with a turn counter between 0 and the chamber of its bullet,
    one of the six; so a game sees at most five surviving pulls, and every
    survival message reports between one and five chambers left, with odds
    that print as 100 over that number: the division by
    [float64(remainingChambers)] never divides by zero. *)
Theorem main_game_invariant (games : Registry) :
  reachable games →
  (∀ id game, games !! id = Some (Some game) →
              IsActive game = true ∧
              0 <= CurrentPos game <= Bullet game ∧ Bullet game < 6) ∧
  (∀ m games' playerID remaining odds rest,
     pull m games = Done (games', Survives playerID remaining odds :: rest) →
     1 <= remaining <= 5 ∧ tenths odds = Some (round_half_even 1000 remaining)).
Proof.
  intros Hr. apply main_reachable_ok in Hr. split; [exact Hr|].
  intros m games' p r odds rest.
  destruct (main_guard games (ChatID m) Hr)
    as [(_ & Ha & _) | [(_ & Ha & _) | (game & _ & (_ & Hpos & Hbul) & Ha & _)]];
    unfold pull; rewrite Ha; cbn [bind]; try discriminate.
  split_outcome.
  destruct (negb _); [discriminate|].
  destruct (Z.eqb_spec (CurrentPos game) (Bullet game)); [discriminate|].
  split_outcome. intros [= _ _ <- <- _].
  rewrite (wrap_small (CurrentPos game + 1)) by (unfold min_int, max_int; lia).
  rewrite wrap_small by (unfold min_int, max_int; lia).
  split; [lia|]. apply odds_print_as_quotient. lia.
Qed.

Lemma main_pair_reachable : reachable (MainSample.room (MainSample.pair 3 0)).
Proof.
  apply (reachable_step (MainSample.room
                           {| Players := ["alice"]; Bullet := 3; CurrentPos := 0;
                              IsActive := true |})
           Join (says carol) _ [Joined "carol" ["alice"; "carol"]]).
  - apply (reachable_step ∅ (StartRoulette 3) (says alice) _ [Created "alice"]).
    + apply reachable_start.
    + cbn. lia.
    + vm_compute. reflexivity.
  - exact I.
  - vm_compute. reflexivity.
Qed.

Lemma main_game_invariant_witness :
  0 <= CurrentPos (MainSample.pair 3 0) <= Bullet (MainSample.pair 3 0).
Proof.
  destruct (main_game_invariant (MainSample.room (MainSample.pair 3 0))
              main_pair_reachable) as [H _].
  destruct (H 7 (MainSample.pair 3 0) eq_refl) as (_ & Hc & _). exact Hc.
Defined.

End MainFacts.

(** * More of [src/unnamed/part_001] *)

Section Part001Facts.
Import Part001 Part001Runs.

Ltac split_result :=
  match goal with
  | |- context [bind ?x _] => destruct x; cbn [bind]; [|discriminate]
  end.

Ltac part001_paths :=
  repeat first
    [ progress cbn [bind]
    | match goal with
      | |- context [bind ?x _] => destruct x
      | |- context [match ?x with _ => _ end] => destruct x
      end ].

(** X20. A command of one chat never reads or writes the entry of
    another, whatever the registry holds. *)
Theorem part001_other_chats_untouched c m (games games' : Registry) sent id :
  handle c m games = Done (games', sent) →
  id ≠ ChatID m →
  games' !! id = games !! id.
Proof.
  intros Hrun Hne. revert Hrun.
  destruct c; cbn [handle];
    unfold create, join, start, skip, pull, stop, help, status;
    part001_paths; intros [= <- _];
    by rewrite ?lookup_insert_ne by done.
Qed.

Lemma part001_other_chats_untouched_witness :
  <[7 := None]> (<[8 := Some (Part001Sample.pair 2 0 0)]>
                   (Part001Sample.room (Part001Sample.pair 3 1 1))) !! 8
  = <[8 := Some (Part001Sample.pair 2 0 0)]>
      (Part001Sample.room (Part001Sample.pair 3 1 1)) !! 8.
Proof.
  apply (part001_other_chats_untouched Stop (says bob)
           (<[8 := Some (Part001Sample.pair 2 0 0)]>
              (Part001Sample.room (Part001Sample.pair 3 1 1)))
           _ [GameStopped]).
  - vm_compute. reflexivity.
  - discriminate.
Defined.

(** X21. A [nil] entry is final in this revision too: while a chat's
    entry is [nil], every command of that chat but [/help] panics at its
    guard, and no handler that returns, of any chat, changes the entry. *)
Theorem part001_nil_entry_is_final (games : Registry) id :
  games !! id = Some None →
  (∀ c m, ChatID m = id → c ≠ Help → handle c m games = Panic NilDereference) ∧
  (∀ c m games' sent, handle c m games = Done (games', sent) →
                      games' !! id = Some None).
Proof.
  intros Hnil. split.
  - intros c m <- Hc. destruct c; cbn [handle]; try done;
      unfold create, join, start, skip, pull, stop, status,
        activeGame, existsAndActive;
      by rewrite Hnil.
  - intros c m games' sent.
    destruct (decide (ChatID m = id)) as [<-|Hne].
    + destruct c; cbn [handle];
        unfold create, join, start, skip, pull, stop, help, status,
          activeGame, existsAndActive;
        rewrite ?Hnil; cbn [bind]; try discriminate.
      by intros [= <- _].
    + rewrite <- Hnil. revert Hne.
      destruct c; cbn [handle];
        unfold create, join, start, skip, pull, stop, help, status;
        part001_paths; intros Hne [= <- _];
        by rewrite ?lookup_insert_ne by done.
Qed.

Lemma part001_nil_entry_is_final_witness :
  handle Skip (says carol) ({[ 7 := None ]} : Registry) = Panic NilDereference.
Proof.
  assert (Hnil : ({[ 7 := None ]} : Registry) !! 7 = Some None) by reflexivity.
  destruct (part001_nil_entry_is_final _ 7 Hnil) as [H _].
  apply H; [reflexivity | discriminate].
Defined.

Lemma part001_playerOnTurn_at game q :
  0 <= CurrentPos game →
  Players game !! Z.to_nat (CurrentPos game mod len (Players game)) = Some q →
  playerOnTurn game = Done q.
Proof.
  intros Hpos Hq. unfold playerOnTurn, modulo, index, len in *.
  assert (Hlen : (0 < length (Players game))%nat).
  { destruct (Players game); [discriminate | cbn; lia]. }
  destruct (Z.eqb_spec (Z.of_nat (length (Players game))) 0); [lia|]. cbn.
  rewrite Z.rem_mod_nonneg by lia.
  destruct (Z.ltb_spec (CurrentPos game mod Z.of_nat (length (Players game))) 0).
  - pose proof (Z.mod_pos_bound (CurrentPos game)
                  (Z.of_nat (length (Players game)))). lia.
  - by rewrite Hq.
Qed.

Section Part001OnTurn.

Variables (m : Message) (games : Registry) (game : Game).
Hypothesis Hentry : games !! ChatID m = Some (Some game).
Hypothesis Hactive : IsActive game = true.
Hypothesis Hturn : playerOnTurn game = Done (getPlayerID (Sender m)).

(** X22. A [/pull] by the player on turn.  With [PullCount] at the bullet
    the shot is fatal: the death notice is sent and the entry is
    overwritten with [nil].  Otherwise, a chamber remaining, the player
    survives and the pull ends the turn: [PullCount] and the turn counter
    both go up by one, the first message reports 6 minus the new
    [PullCount] chambers and the player's skips, the second names the next
    player of the roster; roster, bullet and skips stay. *)
Theorem part001_pull_effect :
  0 <= CurrentPos game < max_int →
  (PullCount game = Bullet game →
   pull m games = Done (<[ChatID m := None]> games, [Bang (Username (Sender m))])) ∧
  (PullCount game ≠ Bullet game →
   0 <= PullCount game →
   0 < 6 - PullCount game - 1 →
   ∃ game' nextPlayer,
     pull m games
     = Done (<[ChatID m := Some game']> games,
             [Survives (getPlayerID (Sender m)) (6 - PullCount game')
                       (oddsPercentage (6 - PullCount game'))
                       (skipsOf game (getPlayerID (Sender m)));
              NextUp nextPlayer]) ∧
     PullCount game' = PullCount game + 1 ∧
     CurrentPos game' = CurrentPos game + 1 ∧
     Players game
       !! Z.to_nat ((CurrentPos game + 1) mod len (Players game)) = Some nextPlayer ∧
     Players game' = Players game ∧
     Bullet game' = Bullet game ∧
     Skips game' = Skips game ∧
     IsActive game' = true).
Proof.
  intros Hpos. split.
  - intros Hb. unfold pull, activeGame. rewrite Hentry, Hactive. cbn [bind].
    rewrite Hturn. cbn [bind]. rewrite String.eqb_refl. cbn [negb].
    by destruct (Z.eqb_spec (PullCount game) (Bullet game)).
  - intros Hb H0 H1.
    assert (Hwc : wrap (CurrentPos game + 1) = CurrentPos game + 1).
    { apply wrap_small. unfold min_int, max_int in *. lia. }
    assert (Hwp : wrap (PullCount game + 1) = PullCount game + 1).
    { apply wrap_small. unfold min_int, max_int. lia. }
    assert (Hrem : remainingChambers game = 6 - (PullCount game + 1)).
    { unfold remainingChambers.
      rewrite (wrap_small (6 - PullCount game)) by (unfold min_int, max_int; lia).
      rewrite wrap_small by (unfold min_int, max_int; lia). lia. }
    assert (Hlen : (0 < length (Players game))%nat).
    { unfold playerOnTurn, modulo, len in Hturn.
      destruct (Players game); [discriminate | cbn; lia]. }
    destruct (lookup_lt_is_Some_2 (Players game)
                (Z.to_nat ((CurrentPos game + 1) mod len (Players game)))) as [q Hq].
    { unfold len.
      pose proof (Z.mod_pos_bound (CurrentPos game + 1)
                    (Z.of_nat (length (Players game)))). lia. }
    unfold pull, activeGame. rewrite Hentry, Hactive. cbn [bind].
    rewrite Hturn. cbn [bind]. rewrite String.eqb_refl. cbn [negb].
    destruct (Z.eqb_spec (PullCount game) (Bullet game)); [done|].
    destruct (Z.leb_spec (remainingChambers game) 0); [lia|].
    rewrite Hrem, Hwc, Hwp.
    set (game' := Build_Game _ _ _ _ _ _).
    assert (Hnext : playerOnTurn game' = Done q).
    { apply part001_playerOnTurn_at; subst game'; cbn; [lia | done]. }
    rewrite Hnext. cbn [bind]. exists game', q. subst game'. by cbn.
Qed.

End Part001OnTurn.

Lemma part001_pull_effect_witness :
  ∃ game' nextPlayer,
    pull (says alice) (Part001Sample.room (Part001Sample.pair 3 0 0))
    = Done (<[7 := Some game']> (Part001Sample.room (Part001Sample.pair 3 0 0)),
            [Survives "alice" 5 (oddsPercentage 5) 2; NextUp nextPlayer]) ∧
    nextPlayer = "carol" ∧ CurrentPos game' = 1.
Proof.
  assert (Hpos : 0 <= CurrentPos (Part001Sample.pair 3 0 0) < max_int).
  { vm_compute. split; [discriminate | reflexivity]. }
  destruct (part001_pull_effect (says alice)
              (Part001Sample.room (Part001Sample.pair 3 0 0))
              (Part001Sample.pair 3 0 0) eq_refl eq_refl eq_refl Hpos) as [_ H].
  destruct H as (game' & q & Hp & Hn & Hc & Hq & _).
  - vm_compute. discriminate.
  - vm_compute. discriminate.
  - reflexivity.
  - exists game', q. rewrite Hn in Hp. split; [exact Hp|].
    split; [|exact Hc]. injection Hq as <-. reflexivity.
Defined.

(** ** The invariant of [src/unnamed/part_001] *)

Lemma part001_guard (games : Registry) id :
  registryOk games →
  (games !! id = None ∧ activeGame games id = Done None
   ∧ existsAndActive games id = Done false) ∨
  (games !! id = Some None ∧ activeGame games id = Panic NilDereference
   ∧ existsAndActive games id = Panic NilDereference) ∨
  (∃ game, games !! id = Some (Some game) ∧ gameOk game
           ∧ activeGame games id = Done (Some game)
           ∧ existsAndActive games id = Done true).
Proof.
  intros Hok. unfold activeGame, existsAndActive.
  destruct (games !! id) as [[game|]|] eqn:E; [|by right; left|by left].
  right. right. exists game. pose proof (Hok _ _ E) as Hg.
  rewrite (proj1 Hg). by split; [|split; [|split]].
Qed.

Lemma part001_registryOk_nil (games : Registry) id :
  registryOk games → registryOk (<[id := None]> games).
Proof.
  intros Hok k g Hk. destruct (decide (id = k)) as [<-|Hne].
  - by rewrite lookup_insert_eq in Hk.
  - rewrite lookup_insert_ne in Hk by done. eauto.
Qed.

Lemma part001_registryOk_game (games : Registry) id game :
  registryOk games → gameOk game → registryOk (<[id := Some game]> games).
Proof.
  intros Hok Hg k g Hk. destruct (decide (id = k)) as [<-|Hne].
  - rewrite lookup_insert_eq in Hk. by injection Hk as <-.
  - rewrite lookup_insert_ne in Hk by done. eauto.
Qed.

Lemma part001_handle_ok c m (games games' : Registry) sent :
  registryOk games →
  drawInRange c →
  handle c m games = Done (games', sent) →
  registryOk games'.
Proof.
  intros Hok Hdraw.
  destruct (part001_guard games (ChatID m) Hok)
    as [(_ & Ha & He) | [(_ & Ha & He) | (game & Hg & (Hact & Hpos & Hbul) & Ha & He)]];
    destruct c; cbn [handle];
    unfold create, join, start, skip, pull, stop, help, status;
    rewrite ?Ha, ?He; cbn [bind]; try discriminate;
    try (by intros [= <- _]).
  - intros [= <- _]. apply part001_registryOk_game; [done|].
    repeat split; cbn in *; lia.
  - destruct (inRoster _ _); intros [= <- _]; [done|].
    by apply part001_registryOk_game.
  - destruct (_ <? 2); [by intros [= <- _]|].
    split_result. by intros [= <- _].
  - split_result.
    destruct (negb _); [by intros [= <- _]|].
    destruct (_ <=? 0); [by intros [= <- _]|].
    split_result. intros [= <- _]. by apply part001_registryOk_game.
  - split_result.
    destruct (negb _); [by intros [= <- _]|].
    destruct (Z.eqb_spec (PullCount game) (Bullet game)).
    + intros [= <- _]. by apply part001_registryOk_nil.
    + destruct (_ <=? 0).
      * intros [= <- _]. by apply part001_registryOk_nil.
      * split_result. intros [= <- _].
        apply part001_registryOk_game; [done|].
        assert (Hw : wrap (PullCount game + 1) = PullCount game + 1).
        { apply wrap_small. unfold min_int, max_int. lia. }
        repeat split; cbn; rewrite ?Hw; first [done | lia].
  - intros [= <- _]. by apply part001_registryOk_nil.
  - split_result. by intros [= <- _].
Qed.

Lemma part001_reachable_ok (games : Registry) : reachable games → registryOk games.
Proof.
  induction 1 as [|games c m games' sent _ IH Hdraw Hrun].
  - intros id game H. by rewrite lookup_empty in H.
  - by eapply part001_handle_ok.
Qed.

(** X23. In every registry [src/unnamed/part_001] can reach, a game that
    is there is active and has fired between 0 and [Bullet] pulls, the
    bullet in one of the six chambers; so a game sees at most five
    surviving pulls, and every survival message reports between one and
    five chambers left, with odds that print as 100 over that number. *)
Theorem part001_game_invariant (games : Registry) :
  reachable games →
  (∀ id game, games !! id = Some (Some game) →
              IsActive game = true ∧
              0 <= PullCount game <= Bullet game ∧ Bullet game < 6) ∧
  (∀ m games' playerID remaining odds skips rest,
     pull m games = Done (games', Survives playerID remaining odds skips :: rest) →
     1 <= remaining <= 5 ∧ tenths odds = Some (round_half_even 1000 remaining)).
Proof.
  intros Hr. apply part001_reachable_ok in Hr. split; [exact Hr|].
  intros m games' p r odds k rest.
  destruct (part001_guard games (ChatID m) Hr)
    as [(_ & Ha & _) | [(_ & Ha & _) | (game & _ & (_ & Hpos & Hbul) & Ha & _)]];
    unfold pull; rewrite Ha; cbn [bind]; try discriminate.
  split_result.
  destruct (negb _); [discriminate|].
  destruct (Z.eqb_spec (PullCount game) (Bullet game)); [discriminate|].
  destruct (Z.leb_spec (remainingChambers game) 0); [discriminate|].
  split_result. intros [= _ _ <- <- _].
  assert (Hrem : remainingChambers game = 6 - (PullCount game + 1)).
  { unfold remainingChambers.
    rewrite (wrap_small (6 - PullCount game)) by (unfold min_int, max_int; lia).
    rewrite wrap_small by (unfold min_int, max_int; lia). lia. }
  rewrite Hrem. split; [lia|]. apply odds_print_as_quotient. lia.
Qed.

Lemma part001_pair_reachable :
  reachable (Part001Sample.room (Part001Sample.pair 3 0 0)).
Proof.
  apply (reachable_step (Part001Sample.room
                           {| Players := ["alice"]; Bullet := 3; CurrentPos := 0;
                              PullCount := 0; IsActive := true;
                              Skips := {[ "alice" := 2 ]} |})
           Join (says carol) _ [Joined "carol" ["alice"; "carol"]]).
  - apply (reachable_step ∅ (Create 3) (says alice) _ [Created "alice"]).
    + apply reachable_start.
    + cbn. lia.
    + vm_compute. reflexivity.
  - exact I.
  - vm_compute. reflexivity.
Qed.

Lemma part001_game_invariant_witness :
  0 <= PullCount (Part001Sample.pair 3 0 0) <= Bullet (Part001Sample.pair 3 0 0).
Proof.
  destruct (part001_game_invariant (Part001Sample.room (Part001Sample.pair 3 0 0))
              part001_pair_reachable) as [H _].
  destruct (H 7 (Part001Sample.pair 3 0 0) eq_refl) as (_ & Hc & _). exact Hc.
Defined.

End Part001Facts.
